(** * CrossAccountLambdaLister: the deprecation catalog, the per-account
      enumerator and the cross-account handler

    Shallow embedding of [CrossAccountLambdaLister.py].  The module-level
    dictionary [RUNTIME_DEPRECATIONS] is a finite map keyed by strings, the
    three Python functions are Rocq functions of the same names, and the
    remote AWS calls, [print] and the mutated lists are threaded through a
    small state-and-exception monad. *)

From stdpp Require Import base option list strings gmap fin_maps.

Local Open Scope string_scope.

(** ** The deprecation catalog *)

(** One value of the dictionary: [{"deprecated": b, "date": d}]. *)
Record runtime_info : Type := RuntimeInfo {
  deprecated : bool;
  date : string
}.

Definition RUNTIME_DEPRECATIONS_items : list (string * runtime_info) :=
  [ ("dotnet6", RuntimeInfo false "2024-11-12");
    ("dotnet7", RuntimeInfo false "N/A");
    ("dotnetcore1.0", RuntimeInfo true "2019-07-30");
    ("dotnetcore2.0", RuntimeInfo true "2019-05-30");
    ("dotnetcore2.1", RuntimeInfo true "2022-01-05");
    ("dotnetcore3.1", RuntimeInfo true "2023-04-03");
    ("go1.x", RuntimeInfo false "2024-07-12");
    ("go2.x", RuntimeInfo false "N/A");
    ("java8", RuntimeInfo false "2024-01-08");
    ("java8.al2", RuntimeInfo false "2025-05-30");
    ("java11", RuntimeInfo false "2025-01-08");
    ("java17", RuntimeInfo false "2026-09-14");
    ("java21", RuntimeInfo false "N/A");
    ("nodejs", RuntimeInfo true "2016-10-31");
    ("nodejs4.3", RuntimeInfo true "2020-04-06");
    ("nodejs4.3-edge", RuntimeInfo true "2019-04-30");
    ("nodejs6.10", RuntimeInfo true "2019-08-12");
    ("nodejs8.10", RuntimeInfo true "2020-03-06");
    ("nodejs10.x", RuntimeInfo true "2022-02-14");
    ("nodejs12.x", RuntimeInfo true "2023-03-31");
    ("nodejs14.x", RuntimeInfo false "2024-11-27");
    ("nodejs16.x", RuntimeInfo false "2025-06-12");
    ("nodejs18.x", RuntimeInfo false "2025-06-12");
    ("nodejs20.x", RuntimeInfo false "N/A");
    ("provided", RuntimeInfo false "N/A");
    ("provided.al2", RuntimeInfo false "N/A");
    ("provided.al2023", RuntimeInfo false "N/A");
    ("python2.7", RuntimeInfo true "2021-07-15");
    ("python3.6", RuntimeInfo true "2022-07-18");
    ("python3.7", RuntimeInfo true "2023-11-27");
    ("python3.8", RuntimeInfo false "2024-10-14");
    ("python3.9", RuntimeInfo false "2025-08-24");
    ("python3.10", RuntimeInfo false "2026-07-30");
    ("python3.11", RuntimeInfo false "2027-09-24");
    ("python3.12", RuntimeInfo false "N/A");
    ("ruby2.5", RuntimeInfo true "2022-07-30");
    ("ruby2.6", RuntimeInfo true "2022-05-30");
    ("ruby2.7", RuntimeInfo false "2023-11-07");
    ("ruby3.2", RuntimeInfo false "2026-04-09") ].

(** The dictionary literal of lines 8-48. *)
Definition RUNTIME_DEPRECATIONS : gmap string runtime_info :=
  list_to_map RUNTIME_DEPRECATIONS_items.

(** ** Exceptions

    The source names one exception class, botocore's [ClientError], in its
    three [except] clauses.  A clause [except ClientError] lets every other
    class through, so the model keeps the class of a raised exception:
    [KeyError] is what a dictionary subscript raises on a missing key, and
    [OtherException] stands for any class that is neither.  The string is
    [str(e)]. *)
Inductive exception : Type :=
| ClientError (str : string)
| KeyError (key : string)
| OtherException (str : string).

Definition is_ClientError (e : exception) : bool :=
  match e with ClientError _ => true | _ => false end.

(** [str(e)], as the log lines interpolate it. *)
Definition str (e : exception) : string :=
  match e with
  | ClientError s => s
  | KeyError k => "'" +:+ k +:+ "'"
  | OtherException s => s
  end.

(** [k in d] and [d[k]] on a dictionary with string keys. *)
Definition dict_contains {V} (d : gmap string V) (k : string) : bool :=
  match d !! k with Some _ => true | None => false end.

Definition dict_getitem {V} (d : gmap string V) (k : string) : exception + V :=
  match d !! k with Some v => inr v | None => inl (KeyError k) end.

(** [get_deprecation_info(runtime)], lines 50-59.  [+:+] is string
    concatenation, as the f-strings do. *)
Definition get_deprecation_info (runtime : string) : exception + string :=
  if dict_contains RUNTIME_DEPRECATIONS runtime then
    match dict_getitem RUNTIME_DEPRECATIONS runtime with
    | inl e => inl e
    | inr info =>
        if deprecated info then inr ("Deprecated since " +:+ date info)
        else if String.eqb (date info) "N/A" then inr "No scheduled deprecation"
        else inr ("Will be deprecated on " +:+ date info)
    end
  else inr "No deprecation information available".

(** ** Effects

    A Python function body runs over its own mutable local variables (the
    frame [L]) and the process's standard output.  An exception leaves both
    as they were when it was raised: the rows appended before a failure are
    still in the list when the [except] clause runs. *)
Definition M (L A : Type) : Type :=
  L → list string → (exception + A) * L * list string.

Definition ret {L A} (a : A) : M L A := λ l out, (inr a, l, out).

Definition raise {L A} (e : exception) : M L A := λ l out, (inl e, l, out).

Definition bind {L A B} (m : M L A) (k : A → M L B) : M L B :=
  λ l out,
    match m l out with
    | (inr a, l', out') => k a l' out'
    | (inl e, l', out') => (inl e, l', out')
    end.

Notation "x <- m ;; k" := (bind m (λ x, k))
  (at level 100, m at next level, right associativity, only parsing).
Notation "m ;;; k" := (bind m (λ _, k))
  (at level 100, right associativity, only parsing).

(** The result of a remote call, or of any expression that may raise. *)
Definition lift {L A} (r : exception + A) : M L A :=
  match r with inr a => ret a | inl e => raise e end.

Definition get {L} : M L L := λ l out, (inr l, l, out).

Definition modify {L} (f : L → L) : M L unit := λ l out, (inr tt, f l, out).

(** [print(line)]. *)
Definition print {L} (line : string) : M L unit :=
  λ l out, (inr tt, l, (out ++ [line])%list).

(** [try: m except ClientError as e: handler(e)].  Only a [ClientError] is
    caught; the handler runs in the frame and output the body left. *)
Definition try_except_ClientError {L A}
    (m : M L A) (handler : exception → M L A) : M L A :=
  λ l out,
    match m l out with
    | (inl e, l', out') =>
        if is_ClientError e then handler e l' out' else (inl e, l', out')
    | r => r
    end.

(** [for x in xs: body(x)] over a list. *)
Fixpoint for_each {L X} (xs : list X) (body : X → M L unit) : M L unit :=
  match xs with
  | [] => ret tt
  | x :: xs' => body x ;;; for_each xs' body
  end.

(** What iterating [paginator.paginate()] can do: yield a page and go on,
    stop, or raise while fetching the next page. *)
Inductive paginate (P : Type) : Type :=
| StopIteration
| Yield (page : P) (rest : paginate P)
| Raise (e : exception).
Arguments StopIteration {P}.
Arguments Yield {P} page rest.
Arguments Raise {P} e.

(** [for page in paginator.paginate(): body(page)]. *)
Fixpoint for_page {L P} (pages : paginate P) (body : P → M L unit) : M L unit :=
  match pages with
  | StopIteration => ret tt
  | Yield page rest => body page ;;; for_page rest body
  | Raise e => raise e
  end.

(** A call of a Python function: the callee runs in a fresh frame [l0] of
    its own, which is dropped when it returns or raises; the output is
    shared with the caller. *)
Definition call {L L' A} (l0 : L') (m : M L' A) : M L A :=
  λ l out, let '(r, _, out') := m l0 out in (r, l, out').

(** The outcome of a computation started in frame [l] with output [out]. *)
Definition outcome {L A} (m : M L A) (l : L) (out : list string) : exception + A :=
  (m l out).1.1.

Definition printed {L A} (m : M L A) (l : L) (out : list string) : list string :=
  (m l out).2.

(** ** The data the AWS calls exchange *)

Record function_summary : Type := FunctionSummary {
  summary_FunctionName : string;
  summary_FunctionArn : string
}.

(** One page of [list_functions]: [page['Functions']]. *)
Record functions_page : Type := FunctionsPage {
  Functions : list function_summary
}.

(** The response of [get_function_configuration]; the key ['Runtime'] may
    be missing. *)
Record function_configuration : Type := FunctionConfiguration {
  config_Runtime : option string
}.

Record account : Type := Account { Id : string }.

Record accounts_page : Type := AccountsPage { Accounts : list account }.

Record region_description : Type := RegionDescription { RegionName : string }.

Record describe_regions_response : Type := DescribeRegionsResponse {
  Regions : list region_description
}.

Record credentials : Type := Credentials {
  AccessKeyId : string;
  SecretAccessKey : string;
  SessionToken : string
}.

Record assume_role_response : Type := AssumeRoleResponse {
  response_Credentials : credentials
}.

(** [boto3.Session(aws_access_key_id=..., aws_secret_access_key=...,
    aws_session_token=...)]. *)
Record Session : Type := mkSession {
  aws_access_key_id : string;
  aws_secret_access_key : string;
  aws_session_token : string
}.

(** [session.client('lambda', region_name=region)]. *)
Record lambda_client : Type := LambdaClient {
  client_session : Session;
  region_name : string
}.

(** The remote services, as the answers they give. *)
Record AWS : Type := mkAWS {
  list_accounts : paginate accounts_page;
  describe_regions : exception + describe_regions_response;
  assume_role : string → string → exception + assume_role_response;
  list_functions : lambda_client → paginate functions_page;
  get_function_configuration :
    lambda_client → string → exception + function_configuration
}.

(** One element of the result: the dictionary literal of lines 79-86. *)
Record row : Type := Row {
  AccountId : string;
  Region : string;
  FunctionName : string;
  FunctionArn : string;
  Runtime : string;
  DeprecationInfo : string
}.

(** The returned dictionary of lines 133-136. *)
Record response : Type := Response {
  statusCode : Z;
  body : list row
}.

(** ** The program *)

(** The locals of [lambda_handler] that the body mutates. *)
Record handler_frame : Type := HandlerFrame {
  accounts : list account;
  all_functions : list row
}.

(** ["arn:aws:iam::{}:role/CrossAccountLambdaListerRole".format(account_id)]. *)
Definition role_to_assume_format (account_id : string) : string :=
  "arn:aws:iam::" +:+ account_id +:+ ":role/CrossAccountLambdaListerRole".

(** Lines 120-124: the session built from the temporary credentials. *)
Definition assumed_session (assumed_role : assume_role_response) : Session :=
  {| aws_access_key_id := AccessKeyId (response_Credentials assumed_role);
     aws_secret_access_key := SecretAccessKey (response_Credentials assumed_role);
     aws_session_token := SessionToken (response_Credentials assumed_role) |}.

Section Program.

Variable aws : AWS.

(** Lines 68-77: the inner [try] of the enumerator, whose value is the pair
    of locals [(runtime, deprecation_info)] it leaves. *)
Definition resolve_runtime {L} (lambda_client : lambda_client)
    (account_id region : string) (function : function_summary)
    : M L (string * string) :=
  try_except_ClientError
    (function_config <-
       lift (get_function_configuration aws lambda_client
               (summary_FunctionName function));;
     let runtime := default "Unknown" (config_Runtime function_config) in
     deprecation_info <- lift (get_deprecation_info runtime);;
     ret (runtime, deprecation_info))
    (λ e,
       print ("Error getting configuration for function "
                +:+ summary_FunctionName function
                +:+ " in account " +:+ account_id
                +:+ ", region " +:+ region +:+ ": " +:+ str e);;;
       ret ("Error retrieving", "Unknown")).

(** Lines 68-86: the body of the loop over one page's functions.  The frame
    is the list [functions] of the enumerator. *)
Definition report_function (lambda_client : lambda_client)
    (account_id region : string) (function : function_summary)
    : M (list row) unit :=
  resolved <- resolve_runtime lambda_client account_id region function;;
  let '(runtime, deprecation_info) := resolved in
  modify (λ functions,
    (functions ++ [ {| AccountId := account_id;
                       Region := region;
                       FunctionName := summary_FunctionName function;
                       FunctionArn := summary_FunctionArn function;
                       Runtime := runtime;
                       DeprecationInfo := deprecation_info |} ])%list).

(** [list_functions_in_account(session, account_id, region)], lines 61-89. *)
Definition list_functions_in_account {L} (session : Session)
    (account_id region : string) : M L (list row) :=
  call ([] : list row)
    (try_except_ClientError
       (let lambda_client := LambdaClient session region in
        let paginator := list_functions aws lambda_client in
        for_page paginator (λ page,
          for_each (Functions page)
            (report_function lambda_client account_id region)))
       (λ e,
          print ("Error listing functions in account " +:+ account_id
                   +:+ ", region " +:+ region +:+ ": " +:+ str e));;;
     get).

(** Lines 126-128: the loop over the regions for one assumed session. *)
Definition list_all_regions (session : Session) (account_id : string)
    (regions : list string) : M handler_frame unit :=
  for_each regions (λ region,
    functions <- list_functions_in_account session account_id region;;
    modify (λ l, {| accounts := accounts l;
                    all_functions := (all_functions l ++ functions)%list |})).

(** Lines 111-131: the body of the loop over the accounts. *)
Definition list_account (regions : list string) (account : account)
    : M handler_frame unit :=
  let account_id := Id account in
  try_except_ClientError
    (assumed_role <-
       lift (assume_role aws (role_to_assume_format account_id)
               "ListLambdaFunctionsSession");;
     let session := assumed_session assumed_role in
     list_all_regions session account_id regions)
    (λ e,
       print ("Error assuming role in account " +:+ account_id
                +:+ ": " +:+ str e)).

(** [lambda_handler(event, context)], lines 91-136.  Neither argument is
    read. *)
Definition lambda_handler {L Ev Ctx} (event : Ev) (context : Ctx) : M L response :=
  call {| accounts := []; all_functions := [] |}
    (for_page (list_accounts aws) (λ page,
       modify (λ l, {| accounts := (accounts l ++ Accounts page)%list;
                       all_functions := all_functions l |}));;;
     described <- lift (describe_regions aws);;
     let regions := map RegionName (Regions described) in
     l <- get;;
     for_each (accounts l) (list_account regions);;;
     l <- get;;
     ret {| statusCode := 200; body := all_functions l |}).

(** The enumerator's outcome for one account and region: the call does not
    read the caller's frame or the output so far (see
    [list_functions_in_account_outcome]). *)
Definition enumerated (session : Session) (account_id region : string)
    : exception + list row :=
  outcome (list_functions_in_account (L:=unit) session account_id region) tt [].

End Program.

(** ** Vocabulary of the statements *)

(** The pages an iteration yields before it stops or raises, and the
    exception that ends it, if one does. *)
Fixpoint yielded {P} (pages : paginate P) : list P :=
  match pages with
  | StopIteration => []
  | Yield page rest => page :: yielded rest
  | Raise _ => []
  end.

Fixpoint ending {P} (pages : paginate P) : option exception :=
  match pages with
  | StopIteration => None
  | Yield _ rest => ending rest
  | Raise e => Some e
  end.

(** The function summaries, and the accounts, in listing order. *)
Definition yielded_functions (pages : paginate functions_page) : list function_summary :=
  concat (map Functions (yielded pages)).

Definition yielded_accounts (pages : paginate accounts_page) : list account :=
  concat (map Accounts (yielded pages)).

(** A computation that only appends to the output and never reads it. *)
Definition steady {L A} (m : M L A) : Prop :=
  ∀ l out, m l out = let '(r, l', o) := m l [] in (r, l', (out ++ o)%list).

(** The row the enumerator appends for a listed function. *)
Definition row_for (aws : AWS) (client : lambda_client)
    (account_id region : string) (function : function_summary) (r : row) : Prop :=
  AccountId r = account_id ∧ Region r = region ∧
  FunctionName r = summary_FunctionName function ∧
  FunctionArn r = summary_FunctionArn function ∧
  match get_function_configuration aws client (summary_FunctionName function) with
  | inr config =>
      Runtime r = default "Unknown" (config_Runtime config) ∧
      get_deprecation_info (Runtime r) = inr (DeprecationInfo r)
  | inl (ClientError _) =>
      Runtime r = "Error retrieving" ∧ DeprecationInfo r = "Unknown"
  | inl _ => False
  end.

(** The rows the handler appends for one account. *)
Definition account_rows (aws : AWS) (regions : list string)
    (account : account) (rows : list row) : Prop :=
  match assume_role aws (role_to_assume_format (Id account))
          "ListLambdaFunctionsSession" with
  | inr assumed_role =>
      ∃ chunks, rows = concat chunks ∧
        Forall2 (λ region chunk,
                   enumerated aws (assumed_session assumed_role) (Id account) region
                   = inr chunk)
          regions chunks
  | inl e => is_ClientError e = true ∧ rows = []
  end.

(** The exception an account lets through: from the role assumption, or
    from the enumerator in one of the regions. *)
Definition account_raises (aws : AWS) (regions : list string)
    (account : account) (e : exception) : Prop :=
  is_ClientError e = false ∧
  match assume_role aws (role_to_assume_format (Id account))
          "ListLambdaFunctionsSession" with
  | inr assumed_role =>
      ∃ region, region ∈ regions ∧
        enumerated aws (assumed_session assumed_role) (Id account) region = inl e
  | inl e' => e' = e
  end.

(** Every failure of a call made inside a [try] is a [ClientError]: the
    role assumption, the function listing and the configuration fetch. *)
Definition raises_only_ClientError (aws : AWS) : Prop :=
  (∀ role_arn session_name e,
     assume_role aws role_arn session_name = inl e → is_ClientError e = true) ∧
  (∀ client e,
     ending (list_functions aws client) = Some e → is_ClientError e = true) ∧
  (∀ client name e,
     get_function_configuration aws client name = inl e → is_ClientError e = true).

(** A date written [YYYY-MM-DD]. *)
Definition is_digit (c : Ascii.ascii) : bool :=
  (48 <=? Ascii.nat_of_ascii c)%nat && (Ascii.nat_of_ascii c <=? 57)%nat.

Definition is_iso_date (s : string) : bool :=
  match String.list_ascii_of_string s with
  | [y1; y2; y3; y4; s1; m1; m2; s2; d1; d2] =>
      forallb is_digit [y1; y2; y3; y4; m1; m2; d1; d2]
      && Ascii.eqb s1 (Ascii.ascii_of_nat 45) && Ascii.eqb s2 (Ascii.ascii_of_nat 45)
  | _ => false
  end.

(** ** Sample environments

    Concrete answers of the services, on which the statements below are
    evaluated. *)
Module Sample.

Definition fa : function_summary :=
  FunctionSummary "fa" "arn:aws:lambda:us-east-1:111:function:fa".
Definition fb : function_summary :=
  FunctionSummary "fb" "arn:aws:lambda:us-east-1:111:function:fb".
Definition fc : function_summary :=
  FunctionSummary "fc" "arn:aws:lambda:us-east-1:111:function:fc".

Definition regions_response : exception + describe_regions_response :=
  inr (DescribeRegionsResponse
         [RegionDescription "us-east-1"; RegionDescription "eu-west-1"]).

Definition grant (role_arn : string) : exception + assume_role_response :=
  inr (AssumeRoleResponse (Credentials role_arn "secret" "token")).

(** Three accounts on two pages and two regions.  Account 222 denies the
    role; in us-east-1 the listing has two pages and the configuration of
    [fb] is denied, while [fc] declares no runtime; in eu-west-1 the
    listing fails after its first page.  Every failure is a [ClientError]. *)
Definition aws : AWS :=
  {| list_accounts :=
       Yield (AccountsPage [Account "111"; Account "222"])
         (Yield (AccountsPage [Account "333"]) StopIteration);
     describe_regions := regions_response;
     assume_role := λ role_arn _,
       if String.eqb role_arn (role_to_assume_format "222")
       then inl (ClientError "AccessDenied")
       else grant role_arn;
     list_functions := λ client,
       if String.eqb (region_name client) "us-east-1"
       then Yield (FunctionsPage [fa; fb]) (Yield (FunctionsPage [fc]) StopIteration)
       else Yield (FunctionsPage [fa]) (Raise (ClientError "InvalidRegion"));
     get_function_configuration := λ _ name,
       if String.eqb name "fb" then inl (ClientError "TooManyRequests")
       else if String.eqb name "fc" then inr (FunctionConfiguration None)
       else inr (FunctionConfiguration (Some "python3.12")) |}.

Definition session_111 : Session :=
  mkSession (role_to_assume_format "111") "secret" "token".

(** No accounts at all. *)
Definition empty_organization : AWS :=
  {| list_accounts := StopIteration;
     describe_regions := regions_response;
     assume_role := λ role_arn _, grant role_arn;
     list_functions := λ _, StopIteration;
     get_function_configuration := λ _ _, inr (FunctionConfiguration None) |}.

(** As [aws], but the configuration fetch of [fb] fails with an exception
    that is not a [ClientError]. *)
Definition fetch_times_out : AWS :=
  {| list_accounts := list_accounts aws;
     describe_regions := regions_response;
     assume_role := assume_role aws;
     list_functions := list_functions aws;
     get_function_configuration := λ _ name,
       if String.eqb name "fb" then inl (OtherException "ReadTimeoutError")
       else inr (FunctionConfiguration (Some "python3.12")) |}.

(** As [aws], but the listing in eu-west-1 fails after its first page with
    an exception that is not a [ClientError]. *)
Definition listing_times_out : AWS :=
  {| list_accounts := list_accounts aws;
     describe_regions := regions_response;
     assume_role := assume_role aws;
     list_functions := λ client,
       if String.eqb (region_name client) "us-east-1"
       then Yield (FunctionsPage [fa; fb]) (Yield (FunctionsPage [fc]) StopIteration)
       else Yield (FunctionsPage [fa]) (Raise (OtherException "EndpointConnectionError"));
     get_function_configuration := get_function_configuration aws |}.

(** Accounts 111 and 222; the role assumption in 222 fails with an
    exception that is not a [ClientError]. *)
Definition assumption_times_out : AWS :=
  {| list_accounts := Yield (AccountsPage [Account "222"; Account "111"]) StopIteration;
     describe_regions := regions_response;
     assume_role := λ role_arn _,
       if String.eqb role_arn (role_to_assume_format "222")
       then inl (OtherException "ConnectTimeoutError")
       else grant role_arn;
     list_functions := λ _, Yield (FunctionsPage [fa]) StopIteration;
     get_function_configuration := λ _ _,
       inr (FunctionConfiguration (Some "python3.12")) |}.

(** What the handler returns on [aws]: account 111 then 333, in each
    us-east-1 then eu-west-1. *)
Definition rows_in (account_id : string) : list row :=
  [ Row account_id "us-east-1" "fa" (summary_FunctionArn fa)
      "python3.12" "No scheduled deprecation";
    Row account_id "us-east-1" "fb" (summary_FunctionArn fb)
      "Error retrieving" "Unknown";
    Row account_id "us-east-1" "fc" (summary_FunctionArn fc)
      "Unknown" "No deprecation information available";
    Row account_id "eu-west-1" "fa" (summary_FunctionArn fa)
      "python3.12" "No scheduled deprecation" ].

Definition expected_response : response :=
  {| statusCode := 200; body := (rows_in "111" ++ rows_in "333")%list |}.

End Sample.

(** ** Vocabulary of the log

    The three lines the program prints, as the f-strings of lines 75, 88
    and 131 build them. *)
Definition configuration_error_line (account_id region : string)
    (function : function_summary) (e : exception) : string :=
  "Error getting configuration for function "
    +:+ summary_FunctionName function
    +:+ " in account " +:+ account_id
    +:+ ", region " +:+ region +:+ ": " +:+ str e.

Definition listing_error_line (account_id region : string) (e : exception)
    : string :=
  "Error listing functions in account " +:+ account_id
    +:+ ", region " +:+ region +:+ ": " +:+ str e.

Definition assumption_error_line (account_id : string) (e : exception) : string :=
  "Error assuming role in account " +:+ account_id +:+ ": " +:+ str e.

(** One line for each listed function whose configuration fetch raised a
    [ClientError], in listing order. *)
Definition configuration_error_lines (aws : AWS) (client : lambda_client)
    (account_id region : string) (functions : list function_summary)
    : list string :=
  flat_map
    (λ function,
       match get_function_configuration aws client
               (summary_FunctionName function) with
       | inl e =>
           if is_ClientError e
           then [configuration_error_line account_id region function e]
           else []
       | inr _ => []
       end)
    functions.

(** What one call of the enumerator prints. *)
Definition enumerator_lines (aws : AWS) (session : Session)
    (account_id region : string) : list string :=
  printed (list_functions_in_account (L:=unit) aws session account_id region) tt [].

(** What the handler prints for one account. *)
Definition account_lines (aws : AWS) (regions : list string) (account : account)
    : list string :=
  match assume_role aws (role_to_assume_format (Id account))
          "ListLambdaFunctionsSession" with
  | inr assumed_role =>
      concat (map (enumerator_lines aws (assumed_session assumed_role) (Id account))
                regions)
  | inl e =>
      if is_ClientError e then [assumption_error_line (Id account) e] else []
  end.

(** The same services with another role-assumption service, or another
    function listing. *)
Definition with_assume_role (aws : AWS)
    (f : string → string → exception + assume_role_response) : AWS :=
  {| list_accounts := list_accounts aws;
     describe_regions := describe_regions aws;
     assume_role := f;
     list_functions := list_functions aws;
     get_function_configuration := get_function_configuration aws |}.

Definition with_list_functions (aws : AWS)
    (f : lambda_client → paginate functions_page) : AWS :=
  {| list_accounts := list_accounts aws;
     describe_regions := describe_regions aws;
     assume_role := assume_role aws;
     list_functions := f;
     get_function_configuration := get_function_configuration aws |}.

(** ** More sample environments *)
Module Variants.

(** The account listing is denied on its second page. *)
Definition directory_denied : AWS :=
  {| list_accounts :=
       Yield (AccountsPage [Account "111"]) (Raise (ClientError "AccessDenied"));
     describe_regions := Sample.regions_response;
     assume_role := assume_role Sample.aws;
     list_functions := list_functions Sample.aws;
     get_function_configuration := get_function_configuration Sample.aws |}.

(** As [Sample.aws], with the three functions of us-east-1 on one page. *)
Definition one_page : AWS :=
  {| list_accounts := list_accounts Sample.aws;
     describe_regions := Sample.regions_response;
     assume_role := assume_role Sample.aws;
     list_functions := λ client,
       if String.eqb (region_name client) "us-east-1"
       then Yield (FunctionsPage [Sample.fa; Sample.fb; Sample.fc]) StopIteration
       else Yield (FunctionsPage [Sample.fa]) (Raise (ClientError "InvalidRegion"));
     get_function_configuration := get_function_configuration Sample.aws |}.

(** As [Sample.aws], but every role assumption under another session name
    is refused. *)
Definition other_sessions_refused : AWS :=
  {| list_accounts := list_accounts Sample.aws;
     describe_regions := Sample.regions_response;
     assume_role := λ role_arn session_name,
       if String.eqb session_name "ListLambdaFunctionsSession"
       then assume_role Sample.aws role_arn session_name
       else inl (OtherException "unexpected session name");
     list_functions := list_functions Sample.aws;
     get_function_configuration := get_function_configuration Sample.aws |}.


End Variants.

(** ** Properties *)

Example lookup_python312 :
  get_deprecation_info "python3.12" = inr "No scheduled deprecation".
Proof. vm_compute. reflexivity. Qed.

Example lookup_nodejs43 :
  get_deprecation_info "nodejs4.3" = inr "Deprecated since 2020-04-06".
Proof. vm_compute. reflexivity. Qed.

Example lookup_java17 :
  get_deprecation_info "java17" = inr "Will be deprecated on 2026-09-14".
Proof. vm_compute. reflexivity. Qed.

Example lookup_empty_string :
  get_deprecation_info "" = inr "No deprecation information available".
Proof. vm_compute. reflexivity. Qed.

(** *** The table as a dictionary

    No key is written twice in the literal, so the map holds exactly the
    listed entries. *)
Lemma RUNTIME_DEPRECATIONS_keys_NoDup : NoDup RUNTIME_DEPRECATIONS_items.*1.
Proof. apply (bool_decide_unpack _). vm_compute. reflexivity. Qed.

Lemma RUNTIME_DEPRECATIONS_lookup runtime info :
  RUNTIME_DEPRECATIONS !! runtime = Some info ↔ (runtime, info) ∈ RUNTIME_DEPRECATIONS_items.
Proof.
  unfold RUNTIME_DEPRECATIONS. split.
  - apply elem_of_list_to_map_2.
  - apply elem_of_list_to_map_1, RUNTIME_DEPRECATIONS_keys_NoDup.
Qed.

Lemma dict_contains_spec {V} (d : gmap string V) k :
  dict_contains d k = true ↔ is_Some (d !! k).
Proof.
  unfold dict_contains. destruct (d !! k) as [v|]; split; intros H.
  - by exists v.
  - reflexivity.
  - discriminate.
  - by destruct H.
Qed.

Lemma get_deprecation_info_unfold runtime :
  get_deprecation_info runtime =
    match RUNTIME_DEPRECATIONS !! runtime with
    | Some info =>
        if deprecated info then inr ("Deprecated since " +:+ date info)
        else if String.eqb (date info) "N/A" then inr "No scheduled deprecation"
        else inr ("Will be deprecated on " +:+ date info)
    | None => inr "No deprecation information available"
    end.
Proof.
  unfold get_deprecation_info, dict_contains, dict_getitem.
  destruct (RUNTIME_DEPRECATIONS !! runtime); reflexivity.
Qed.

Lemma deprecated_entries_dated :
  Forall (λ kv : string * runtime_info,
            deprecated kv.2 = true → date kv.2 ≠ "N/A")
    RUNTIME_DEPRECATIONS_items.
Proof. apply (bool_decide_unpack _). vm_compute. reflexivity. Qed.

(** *** Computations only append to the output *)

Lemma steady_ret {L A} (a : A) : steady (L:=L) (ret a).
Proof. intros l out. unfold ret. by rewrite app_nil_r. Qed.

Lemma steady_raise {L A} e : steady (L:=L) (A:=A) (raise e).
Proof. intros l out. unfold raise. by rewrite app_nil_r. Qed.

Lemma steady_lift {L A} (r : exception + A) : steady (L:=L) (lift r).
Proof. destruct r; [apply steady_raise | apply steady_ret]. Qed.

Lemma steady_get {L} : steady (L:=L) get.
Proof. intros l out. unfold get. by rewrite app_nil_r. Qed.

Lemma steady_modify {L} (f : L → L) : steady (modify f).
Proof. intros l out. unfold modify. by rewrite app_nil_r. Qed.

Lemma steady_print {L} line : steady (L:=L) (print line).
Proof. intros l out. reflexivity. Qed.

Lemma steady_bind {L A B} (m : M L A) (k : A → M L B) :
  steady m → (∀ a, steady (k a)) → steady (bind m k).
Proof.
  intros Hm Hk l out. unfold bind. rewrite (Hm l out).
  destruct (m l []) as [[[e|a] l'] o]; [done|].
  rewrite (Hk a l' (out ++ o)%list), (Hk a l' o).
  destruct (k a l' []) as [[r l''] o']. by rewrite app_assoc.
Qed.

Lemma steady_try {L A} (m : M L A) h :
  steady m → (∀ e, steady (h e)) → steady (try_except_ClientError m h).
Proof.
  intros Hm Hh l out. unfold try_except_ClientError. rewrite (Hm l out).
  destruct (m l []) as [[[e|a] l'] o]; [|done].
  destruct (is_ClientError e); [|done].
  rewrite (Hh e l' (out ++ o)%list), (Hh e l' o).
  destruct (h e l' []) as [[r l''] o']. by rewrite app_assoc.
Qed.

Lemma steady_for_each {L X} (xs : list X) (body : X → M L unit) :
  (∀ x, steady (body x)) → steady (for_each xs body).
Proof.
  intros Hb. induction xs as [|x xs IH]; simpl.
  - apply steady_ret.
  - apply steady_bind; [apply Hb | intros _; apply IH].
Qed.

Lemma steady_for_page {L P} (pages : paginate P) (body : P → M L unit) :
  (∀ x, steady (body x)) → steady (for_page pages body).
Proof.
  intros Hb. induction pages as [|page rest IH|e]; simpl.
  - apply steady_ret.
  - apply steady_bind; [apply Hb | intros _; apply IH].
  - apply steady_raise.
Qed.

Lemma steady_call {L L' A} (l0 : L') (m : M L' A) :
  steady m → steady (L:=L) (call l0 m).
Proof.
  intros Hm l out. unfold call. rewrite (Hm l0 out).
  by destruct (m l0 []) as [[r l'] o].
Qed.

Lemma get_deprecation_info_returns runtime :
  ∃ status, get_deprecation_info runtime = inr status.
Proof.
  rewrite get_deprecation_info_unfold.
  destruct (RUNTIME_DEPRECATIONS !! runtime) as [info|]; [|by eexists].
  destruct (deprecated info); [by eexists|].
  destruct (String.eqb (date info) "N/A"); by eexists.
Qed.

(** *** What the loops of the enumerator leave behind

    Each lemma reads off a finished run: the rows appended to [functions]
    and the exception that came out, if any.  An exception that leaves the
    inner [try] is never a [ClientError]. *)
Section Enumerator.
Variable aws : AWS.
Variables (client : lambda_client) (account_id region : string).

Lemma report_function_run function functions out r l' out' :
  report_function aws client account_id region function functions out = (r, l', out') →
  match r with
  | inr _ => ∃ row, l' = (functions ++ [row])%list ∧
                    row_for aws client account_id region function row
  | inl e => is_ClientError e = false ∧
             get_function_configuration aws client (summary_FunctionName function) = inl e
  end.
Proof.
  unfold report_function, resolve_runtime, bind, try_except_ClientError, row_for.
  destruct (get_function_configuration aws client (summary_FunctionName function))
    as [e|config] eqn:Hfetch.
  - destruct e as [s|k|s]; cbn [lift raise ret print is_ClientError modify];
      intros [= <- <- <-]; eauto 10.
  - destruct (get_deprecation_info_returns (default "Unknown" (config_Runtime config)))
      as [status Hstatus].
    cbn [lift ret]. rewrite Hstatus. cbn [lift ret modify].
    intros [= <- <- <-]. eexists. split; [reflexivity|]. cbn [AccountId Region FunctionName FunctionArn Runtime DeprecationInfo]. eauto 10.
Qed.

Lemma report_functions_run fs : ∀ functions out r l' out',
  for_each fs (report_function aws client account_id region) functions out
    = (r, l', out') →
  match r with
  | inr _ => ∃ rows, l' = (functions ++ rows)%list ∧
                     Forall2 (row_for aws client account_id region) fs rows
  | inl e => is_ClientError e = false ∧
             ∃ f, f ∈ fs ∧
               get_function_configuration aws client (summary_FunctionName f) = inl e
  end.
Proof.
  induction fs as [|f fs IH]; intros functions out r l' out'.
  - intros [= <- <- <-]. exists []. by rewrite app_nil_r.
  - cbn [for_each]. unfold bind at 1.
    destruct (report_function aws client account_id region f functions out)
      as [[[e|[]] l1] o1] eqn:Hf; apply report_function_run in Hf.
    + intros [= <- <- <-]. destruct Hf as [He Hf]. split; [done|].
      exists f. split; [left | done].
    + destruct Hf as (row & -> & Hrow). intros H. apply IH in H.
      destruct r as [e|[]].
      * destruct H as (He & f' & Hin & Hf'). split; [done|].
        exists f'. split; [by right | done].
      * destruct H as (rows & -> & Hrows). exists (row :: rows).
        split; [by rewrite <- app_assoc | by constructor].
Qed.

Lemma report_pages_run pages : ∀ functions out r l' out',
  for_page pages
    (λ page, for_each (Functions page) (report_function aws client account_id region))
    functions out = (r, l', out') →
  match r with
  | inr _ =>
      ending pages = None ∧
      ∃ rows, l' = (functions ++ rows)%list ∧
        Forall2 (row_for aws client account_id region) (yielded_functions pages) rows
  | inl e =>
      (ending pages = Some e ∧
       ∃ rows, l' = (functions ++ rows)%list ∧
         Forall2 (row_for aws client account_id region) (yielded_functions pages) rows)
      ∨ (is_ClientError e = false ∧
         ∃ f, f ∈ yielded_functions pages ∧
           get_function_configuration aws client (summary_FunctionName f) = inl e)
  end.
Proof.
  induction pages as [|page rest IH|e0]; intros functions out r l' out'.
  - intros [= <- <- <-]. split; [done|]. exists []. by rewrite app_nil_r.
  - cbn [for_page]. unfold bind at 1.
    destruct (for_each (Functions page) _ functions out) as [[[e|[]] l1] o1] eqn:Hp;
      apply report_functions_run in Hp.
    + intros [= <- <- <-]. destruct Hp as (He & f & Hin & Hf). right.
      split; [done|]. exists f. split; [|done].
      unfold yielded_functions. cbn [yielded map concat].
      apply elem_of_app. by left.
    + destruct Hp as (rows1 & -> & Hrows1). intros H. apply IH in H.
      unfold yielded_functions in *. cbn [yielded map concat ending].
      destruct r as [e|[]].
      * destruct H as [(Hend & rows & -> & Hrows)|(He & f & Hin & Hf)].
        -- left. split; [done|]. exists (rows1 ++ rows)%list.
           split; [by rewrite app_assoc | by apply Forall2_app].
        -- right. split; [done|]. exists f. split; [|done].
           apply elem_of_app. by right.
      * destruct H as (Hend & rows & -> & Hrows). split; [done|].
        exists (rows1 ++ rows)%list.
        split; [by rewrite app_assoc | by apply Forall2_app].
  - intros [= <- <- <-]. left. split; [done|]. exists []. by rewrite app_nil_r.
Qed.

End Enumerator.

Lemma list_functions_in_account_run aws session account_id region
    {L} (l : L) out r l' out' :
  list_functions_in_account aws session account_id region l out = (r, l', out') →
  l' = l ∧
  match r with
  | inr rows =>
      Forall2 (row_for aws (LambdaClient session region) account_id region)
        (yielded_functions (list_functions aws (LambdaClient session region))) rows ∧
      (ending (list_functions aws (LambdaClient session region)) = None ∨
       ∃ s, ending (list_functions aws (LambdaClient session region))
            = Some (ClientError s))
  | inl e =>
      is_ClientError e = false ∧
      (ending (list_functions aws (LambdaClient session region)) = Some e ∨
       ∃ f, f ∈ yielded_functions (list_functions aws (LambdaClient session region)) ∧
         get_function_configuration aws (LambdaClient session region)
           (summary_FunctionName f) = inl e)
  end.
Proof.
  unfold list_functions_in_account, call, bind, try_except_ClientError.
  destruct (for_page (list_functions aws (LambdaClient session region)) _ [] out)
    as [[[e|[]] l1] o1] eqn:Hp;
    apply report_pages_run in Hp.
  - destruct (is_ClientError e) eqn:He.
    + cbn [print get]. intros [= <- <- <-]. split; [done|].
      destruct Hp as [(Hend & rows & -> & Hrows)|(He' & _)]; [|congruence].
      split; [done|]. right. destruct e; try done. by eexists.
    + intros [= <- <- <-]. split; [done|]. split; [done|].
      destruct Hp as [(Hend & _)|(_ & Hf)]; [by left | by right].
  - cbn [get]. intros [= <- <- <-]. split; [done|].
    destruct Hp as (Hend & rows & -> & Hrows). split; [done | by left].
Qed.

(** *** The enumerator as a function of the account and the region *)
Section Regions.
Variable aws : AWS.

Lemma steady_resolve_runtime {L} client account_id region function :
  steady (L:=L) (resolve_runtime aws client account_id region function).
Proof.
  apply steady_try.
  - apply steady_bind; [apply steady_lift | intros config].
    apply steady_bind; [apply steady_lift | intros status; apply steady_ret].
  - intros e. apply steady_bind; [apply steady_print | intros _; apply steady_ret].
Qed.

Lemma steady_report_function client account_id region function :
  steady (report_function aws client account_id region function).
Proof.
  apply steady_bind; [apply steady_resolve_runtime | intros [runtime status]].
  apply steady_modify.
Qed.

Lemma steady_list_functions_in_account {L} session account_id region :
  steady (L:=L) (list_functions_in_account aws session account_id region).
Proof.
  apply steady_call, steady_bind; [|intros _; apply steady_get].
  apply steady_try; [|intros e; apply steady_print].
  apply steady_for_page. intros page. apply steady_for_each, steady_report_function.
Qed.

Lemma list_functions_in_account_outcome {L} session account_id region (l : L) out :
  outcome (list_functions_in_account aws session account_id region) l out
  = enumerated aws session account_id region.
Proof.
  unfold enumerated, outcome, list_functions_in_account, call.
  set (m := bind _ _).
  assert (Hm : steady m).
  { apply steady_bind; [|intros _; apply steady_get].
    apply steady_try; [|intros e; apply steady_print].
    apply steady_for_page. intros page. apply steady_for_each, steady_report_function. }
  rewrite (Hm [] out). by destruct (m [] []) as [[r l'] o].
Qed.

Lemma list_functions_in_account_frame {L} session account_id region (l : L) out :
  (list_functions_in_account aws session account_id region l out).1.2 = l.
Proof.
  destruct (list_functions_in_account aws session account_id region l out)
    as [[r l'] out'] eqn:H.
  by apply list_functions_in_account_run in H as [-> _].
Qed.

Lemma list_accounts_run pages : ∀ frame out,
  for_page pages
    (λ page, modify (λ l, {| accounts := (accounts l ++ Accounts page)%list;
                             all_functions := all_functions l |}))
    frame out
  = (match ending pages with None => inr tt | Some e => inl e end,
     {| accounts := (accounts frame ++ yielded_accounts pages)%list;
        all_functions := all_functions frame |},
     out).
Proof.
  induction pages as [|page rest IH|e]; intros [accts rows] out.
  - cbn. by rewrite app_nil_r.
  - cbn [for_page]. unfold bind, modify at 1. rewrite IH.
    unfold yielded_accounts. cbn. by rewrite app_assoc.
  - cbn. by rewrite app_nil_r.
Qed.

Lemma list_all_regions_run session account_id regions : ∀ frame out r l' out',
  list_all_regions aws session account_id regions frame out = (r, l', out') →
  accounts l' = accounts frame ∧
  match r with
  | inr _ =>
      ∃ chunks, all_functions l' = (all_functions frame ++ concat chunks)%list ∧
        Forall2 (λ region chunk,
                   enumerated aws session account_id region = inr chunk)
          regions chunks
  | inl e =>
      is_ClientError e = false ∧
      ∃ region, region ∈ regions ∧ enumerated aws session account_id region = inl e
  end.
Proof.
  unfold list_all_regions.
  induction regions as [|region regions IH]; intros frame out r l' out'.
  - intros [= <- <- <-]. split; [done|]. exists []. by rewrite app_nil_r.
  - cbn [for_each]. unfold bind at 1 2.
    destruct (list_functions_in_account aws session account_id region frame out)
      as [[[e|functions] l1] o1] eqn:Hcall.
    + intros [= <- <- <-].
      pose proof (list_functions_in_account_outcome session account_id region frame out) as Hout.
      unfold outcome in Hout. rewrite Hcall in Hout. cbn in Hout.
      apply list_functions_in_account_run in Hcall as [-> [He _]].
      split; [done|]. split; [done|]. exists region. split; [left | done].
    + pose proof (list_functions_in_account_outcome session account_id region frame out) as Hout.
      unfold outcome in Hout. rewrite Hcall in Hout. cbn in Hout.
      apply list_functions_in_account_run in Hcall as [-> _].
      unfold modify at 1. intros H. apply IH in H as [Hacc H]. cbn in Hacc.
      split; [done|]. destruct r as [e|[]].
      * destruct H as (He & region' & Hin & Hr). split; [done|].
        exists region'. split; [by right | done].
      * destruct H as (chunks & Hall & Hchunks). cbn in Hall.
        exists (functions :: chunks). split; [by rewrite Hall, <- app_assoc|].
        by constructor.
Qed.
End Regions.

(** *** The loops of the handler *)
Section Accounts.
Variable aws : AWS.

Lemma list_account_run regions account frame out r l' out' :
  list_account aws regions account frame out = (r, l', out') →
  accounts l' = accounts frame ∧
  match r with
  | inr _ => ∃ rows, all_functions l' = (all_functions frame ++ rows)%list ∧
                     account_rows aws regions account rows
  | inl e => account_raises aws regions account e
  end.
Proof.
  unfold list_account, try_except_ClientError, bind, account_rows, account_raises.
  destruct (assume_role aws _ _) as [e|assumed] eqn:Hrole; cbn [lift raise ret].
  - destruct (is_ClientError e) eqn:He.
    + cbn [print]. intros [= <- <- <-]. split; [done|].
      exists []. by rewrite app_nil_r.
    + intros [= <- <- <-]. done.
  - destruct (list_all_regions aws (assumed_session assumed) (Id account) regions frame out)
      as [[[e|[]] l1] o1] eqn:Hloop;
      apply list_all_regions_run in Hloop as [Hacc Hloop].
    + destruct Hloop as (He & Hregion). rewrite He.
      intros [= <- <- <-]. done.
    + intros [= <- <- <-]. split; [done|].
      destruct Hloop as (chunks & Hall & Hchunks). eauto.
Qed.

Lemma list_accounts_loop_run regions accts : ∀ frame out r l' out',
  for_each accts (list_account aws regions) frame out = (r, l', out') →
  accounts l' = accounts frame ∧
  match r with
  | inr _ =>
      ∃ per_account,
        all_functions l' = (all_functions frame ++ concat per_account)%list ∧
        Forall2 (account_rows aws regions) accts per_account
  | inl e => ∃ account, account ∈ accts ∧ account_raises aws regions account e
  end.
Proof.
  induction accts as [|account accts IH]; intros frame out r l' out'.
  - intros [= <- <- <-]. split; [done|]. exists []. by rewrite app_nil_r.
  - cbn [for_each]. unfold bind at 1.
    destruct (list_account aws regions account frame out) as [[[e|[]] l1] o1] eqn:Hone;
      apply list_account_run in Hone as [Hacc Hone].
    + intros [= <- <- <-]. split; [done|]. exists account. split; [left | done].
    + destruct Hone as (rows & Hall & Hrows). intros H.
      apply IH in H as [Hacc' H]. split; [congruence|].
      destruct r as [e|[]].
      * destruct H as (account' & Hin & He). exists account'. split; [by right | done].
      * destruct H as (per_account & Hall' & Hper). exists (rows :: per_account).
        split; [by rewrite Hall', Hall, <- app_assoc | by constructor].
Qed.

(** What a run of the handler comes to. *)
Lemma lambda_handler_run {L Ev Ctx} (event : Ev) (context : Ctx) (l : L) out :
  match outcome (lambda_handler aws event context) l out with
  | inr resp =>
      statusCode resp = 200%Z ∧
      ending (list_accounts aws) = None ∧
      ∃ described, describe_regions aws = inr described ∧
        ∃ per_account,
          body resp = concat per_account ∧
          Forall2 (account_rows aws (map RegionName (Regions described)))
            (yielded_accounts (list_accounts aws)) per_account
  | inl e =>
      ending (list_accounts aws) = Some e
      ∨ (ending (list_accounts aws) = None ∧ describe_regions aws = inl e)
      ∨ (ending (list_accounts aws) = None ∧
         ∃ described, describe_regions aws = inr described ∧
           ∃ account, account ∈ yielded_accounts (list_accounts aws) ∧
             account_raises aws (map RegionName (Regions described)) account e)
  end.
Proof.
  unfold outcome, lambda_handler, call. unfold bind at 1. rewrite list_accounts_run.
  destruct (ending (list_accounts aws)) as [e|]; [by left|].
  unfold bind at 1.
  destruct (describe_regions aws) as [e|described]; cbn [lift raise ret];
    [right; by left|].
  unfold bind at 1. cbn [get accounts all_functions app]. unfold bind at 1.
  destruct (for_each _ _ _ out) as [[[e|[]] l1] o1] eqn:Hloop;
    apply list_accounts_loop_run in Hloop as [Hacc Hloop]; cbn [fst snd].
  - right. right. split; [done|]. exists described. split; [done|]. done.
  - cbn [get bind ret]. unfold bind. cbn [get ret fst snd statusCode body].
    split; [done|]. split; [done|]. exists described. split; [done|].
    destruct Hloop as (per_account & Hall & Hper). exists per_account. done.
Qed.
End Accounts.

(** *** The catalog lookup *)

Lemma lookup_empty_key : RUNTIME_DEPRECATIONS !! "" = None.
Proof. vm_compute. reflexivity. Qed.

(** Claim C2.  For a runtime that is a key of the catalog, the lookup returns
    "Deprecated since " followed by the date when the entry is deprecated,
    "No scheduled deprecation" when it is not deprecated and its date is
    "N/A", and "Will be deprecated on " followed by the date otherwise, and
    never "No deprecation information available"; for a runtime that is not
    a key, the empty string included, it returns exactly that sentinel. *)
Theorem get_deprecation_info_cases :
  (∀ runtime info, RUNTIME_DEPRECATIONS !! runtime = Some info →
     (deprecated info = true →
        get_deprecation_info runtime = inr ("Deprecated since " +:+ date info)) ∧
     (deprecated info = false → date info = "N/A" →
        get_deprecation_info runtime = inr "No scheduled deprecation") ∧
     (deprecated info = false → date info ≠ "N/A" →
        get_deprecation_info runtime = inr ("Will be deprecated on " +:+ date info)) ∧
     get_deprecation_info runtime ≠ inr "No deprecation information available")
  ∧ (∀ runtime, RUNTIME_DEPRECATIONS !! runtime = None →
       get_deprecation_info runtime = inr "No deprecation information available")
  ∧ get_deprecation_info "" = inr "No deprecation information available".
Proof.
  split; [|split].
  - intros runtime info Hkey. rewrite get_deprecation_info_unfold, Hkey.
    destruct (deprecated info); (split; [|split; [|split]]); try done.
    + intros _ Hna. by rewrite Hna.
    + intros _ Hna. apply String.eqb_neq in Hna. by rewrite Hna.
    + destruct (String.eqb (date info) "N/A"); done.
  - intros runtime Hkey. by rewrite get_deprecation_info_unfold, Hkey.
  - by rewrite get_deprecation_info_unfold, lookup_empty_key.
Qed.

Lemma get_deprecation_info_cases_witness :
  get_deprecation_info "nodejs4.3" = inr "Deprecated since 2020-04-06"
  ∧ get_deprecation_info "python3.12" = inr "No scheduled deprecation"
  ∧ get_deprecation_info "java17" = inr "Will be deprecated on 2026-09-14"
  ∧ get_deprecation_info "cobol" = inr "No deprecation information available".
Proof.
  pose proof get_deprecation_info_cases as (Hknown & Hunknown & _).
  split; [|split; [|split]].
  - apply (Hknown "nodejs4.3" (RuntimeInfo true "2020-04-06")); reflexivity.
  - apply (Hknown "python3.12" (RuntimeInfo false "N/A")); reflexivity.
  - apply (Hknown "java17" (RuntimeInfo false "2026-09-14")); [reflexivity..|discriminate].
  - apply (Hunknown "cobol"). reflexivity.
Defined.

(** Claim C8.  The lookup is total and deterministic and has no effect: for
    every string it returns a status and raises nothing (the subscript of
    line 52 is guarded by the membership test of line 51), the status is
    the only result, and calling it inside a computation leaves the frame
    and the output as they were. *)
Theorem get_deprecation_info_total (runtime : string) :
  ∃ status,
    get_deprecation_info runtime = inr status
    ∧ (∀ status', get_deprecation_info runtime = inr status' → status' = status)
    ∧ (∀ L (l : L) out, lift (get_deprecation_info runtime) l out = (inr status, l, out)).
Proof.
  destruct (get_deprecation_info_returns runtime) as [status Hstatus].
  exists status. split; [done|]. split.
  - intros status' Hstatus'. congruence.
  - intros L l out. by rewrite Hstatus.
Qed.

Lemma deprecated_entries_iso_dated :
  Forall (λ kv : string * runtime_info,
            deprecated kv.2 = true → is_iso_date (date kv.2) = true)
    RUNTIME_DEPRECATIONS_items.
Proof. apply (bool_decide_unpack _). vm_compute. reflexivity. Qed.

Lemma get_deprecation_info_deprecated_since runtime d :
  get_deprecation_info runtime = inr ("Deprecated since " +:+ d) →
  ∃ info, RUNTIME_DEPRECATIONS !! runtime = Some info
          ∧ deprecated info = true ∧ date info = d.
Proof.
  rewrite get_deprecation_info_unfold.
  destruct (RUNTIME_DEPRECATIONS !! runtime) as [info|]; [|discriminate].
  destruct (deprecated info) eqn:Hdep.
  - intros [= Hd]. by exists info.
  - destruct (String.eqb (date info) "N/A"); discriminate.
Qed.

(** Claim C9.  Every entry of the table with [deprecated = true] has a date
    other than "N/A", written YYYY-MM-DD; so a result of the form
    "Deprecated since <date>" embeds such a date, and no lookup returns
    "Deprecated since N/A". *)
Theorem deprecated_entries_have_dates :
  (∀ runtime info, RUNTIME_DEPRECATIONS !! runtime = Some info →
     deprecated info = true →
     date info ≠ "N/A" ∧ is_iso_date (date info) = true)
  ∧ (∀ runtime d, get_deprecation_info runtime = inr ("Deprecated since " +:+ d) →
       d ≠ "N/A" ∧ is_iso_date d = true)
  ∧ (∀ runtime, get_deprecation_info runtime ≠ inr "Deprecated since N/A").
Proof.
  assert (Hentries : ∀ runtime info, RUNTIME_DEPRECATIONS !! runtime = Some info →
     deprecated info = true → date info ≠ "N/A" ∧ is_iso_date (date info) = true).
  { intros runtime info Hkey Hdep.
    apply RUNTIME_DEPRECATIONS_lookup in Hkey.
    pose proof deprecated_entries_dated as Hna.
    pose proof deprecated_entries_iso_dated as Hiso.
    rewrite Forall_forall in Hna, Hiso.
    split; [apply (Hna _ Hkey Hdep) | apply (Hiso _ Hkey Hdep)]. }
  assert (Hresults : ∀ runtime d,
     get_deprecation_info runtime = inr ("Deprecated since " +:+ d) →
     d ≠ "N/A" ∧ is_iso_date d = true).
  { intros runtime d Hres.
    apply get_deprecation_info_deprecated_since in Hres as (info & Hkey & Hdep & <-).
    by apply (Hentries runtime). }
  split; [done|]. split; [done|].
  intros runtime Hres. by destruct (Hresults runtime "N/A" Hres).
Qed.

Lemma deprecated_entries_have_dates_witness :
  date (RuntimeInfo true "2023-11-27") ≠ "N/A"
  ∧ is_iso_date (date (RuntimeInfo true "2023-11-27")) = true.
Proof.
  apply (proj1 deprecated_entries_have_dates "python3.7"); reflexivity.
Defined.

(** *** Rows of the enumerator and of the handler *)
Section Origins.
Variable aws : AWS.

Lemma enumerated_run session account_id region :
  let client := LambdaClient session region in
  match enumerated aws session account_id region with
  | inr rows =>
      Forall2 (row_for aws client account_id region)
        (yielded_functions (list_functions aws client)) rows ∧
      (ending (list_functions aws client) = None ∨
       ∃ s, ending (list_functions aws client) = Some (ClientError s))
  | inl e =>
      is_ClientError e = false ∧
      (ending (list_functions aws client) = Some e ∨
       ∃ f, f ∈ yielded_functions (list_functions aws client) ∧
         get_function_configuration aws client (summary_FunctionName f) = inl e)
  end.
Proof.
  intros client. unfold enumerated, outcome.
  destruct (list_functions_in_account aws session account_id region tt [])
    as [[r l'] out'] eqn:Hrun.
  by apply list_functions_in_account_run in Hrun as [_ Hrun].
Qed.

(** The enumerator returns when nothing but a [ClientError] is raised. *)
Lemma enumerated_returns session account_id region :
  let client := LambdaClient session region in
  (∀ f e, f ∈ yielded_functions (list_functions aws client) →
     get_function_configuration aws client (summary_FunctionName f) = inl e →
     is_ClientError e = true) →
  (∀ e, ending (list_functions aws client) = Some e → is_ClientError e = true) →
  ∃ rows, enumerated aws session account_id region = inr rows.
Proof.
  intros client Hfetch Hend.
  pose proof (enumerated_run session account_id region) as Hrun. cbn zeta in Hrun.
  destruct (enumerated aws session account_id region) as [e|rows]; [|by eexists].
  destruct Hrun as (He & [Hlist|(f & Hin & Hf)]).
  - apply Hend in Hlist. congruence.
  - apply (Hfetch f e Hin) in Hf. congruence.
Qed.

Lemma enumerated_row_origin session account_id region rows r :
  enumerated aws session account_id region = inr rows → r ∈ rows →
  ∃ function,
    function ∈ yielded_functions (list_functions aws (LambdaClient session region))
    ∧ row_for aws (LambdaClient session region) account_id region function r.
Proof.
  intros Hrows Hin.
  pose proof (enumerated_run session account_id region) as Hrun. cbn zeta in Hrun.
  rewrite Hrows in Hrun. destruct Hrun as [Hall _].
  apply list_elem_of_lookup in Hin as [i Hi].
  destruct (Forall2_lookup_r _ _ _ _ _ Hall Hi) as (function & Hf & Hrow).
  exists function. split; [|done]. apply list_elem_of_lookup. by exists i.
Qed.

Lemma elem_of_concat {A} (x : A) (ls : list (list A)) :
  x ∈ concat ls → ∃ l, l ∈ ls ∧ x ∈ l.
Proof.
  induction ls as [|l ls IH]; cbn [concat].
  - by intros ?%elem_of_nil.
  - intros [Hin|Hin]%elem_of_app.
    + exists l. split; [left | done].
    + destruct (IH Hin) as (l' & Hl' & Hx). exists l'. split; [by right | done].
Qed.

(** Where a row of the response comes from. *)
Lemma body_row_origin {L Ev Ctx} (event : Ev) (context : Ctx) (l : L) out resp r :
  outcome (lambda_handler aws event context) l out = inr resp → r ∈ body resp →
  ∃ described account assumed_role region chunk,
    describe_regions aws = inr described
    ∧ account ∈ yielded_accounts (list_accounts aws)
    ∧ assume_role aws (role_to_assume_format (Id account))
        "ListLambdaFunctionsSession" = inr assumed_role
    ∧ region ∈ map RegionName (Regions described)
    ∧ enumerated aws (assumed_session assumed_role) (Id account) region = inr chunk
    ∧ r ∈ chunk.
Proof.
  intros Hrun Hin.
  pose proof (lambda_handler_run aws event context l out) as H. rewrite Hrun in H.
  destruct H as (_ & _ & described & Hdescribed & per_account & Hbody & Hper).
  rewrite Hbody in Hin. apply elem_of_concat in Hin as (rows & Hrows & Hin).
  apply list_elem_of_lookup in Hrows as [i Hi].
  destruct (Forall2_lookup_r _ _ _ _ _ Hper Hi) as (account & Haccount & Hacc).
  unfold account_rows in Hacc.
  destruct (assume_role aws _ _) as [e|assumed_role] eqn:Hrole.
  { destruct Hacc as [_ ->]. by apply elem_of_nil in Hin. }
  destruct Hacc as (chunks & -> & Hchunks).
  apply elem_of_concat in Hin as (chunk & Hchunk & Hin).
  apply list_elem_of_lookup in Hchunk as [j Hj].
  destruct (Forall2_lookup_r _ _ _ _ _ Hchunks Hj) as (region & Hregion & Henum).
  exists described, account, assumed_role, region, chunk.
  repeat split; try done.
  - apply list_elem_of_lookup. by exists i.
  - apply list_elem_of_lookup. by exists j.
Qed.
End Origins.

Lemma Forall2_row_for_summaries aws client account_id region fs rows :
  Forall2 (row_for aws client account_id region) fs rows →
  map (λ r, FunctionSummary (FunctionName r) (FunctionArn r)) rows = fs.
Proof.
  induction 1 as [|f r fs rows (_ & _ & Hname & Harn & _) _ IH]; [done|].
  cbn [map]. rewrite IH, Hname, Harn. by destruct f.
Qed.

(** Claim C1.  Every row of the response comes from a listed function, and
    its DeprecationInfo is the catalog lookup of its own Runtime, where the
    Runtime is the configuration's runtime or "Unknown" when none is
    declared; the one exception is a row whose configuration fetch raised a
    ClientError, which has Runtime "Error retrieving" and DeprecationInfo
    "Unknown". *)
Theorem deprecation_info_derived_from_runtime
    (aws : AWS) {L Ev Ctx} (event : Ev) (context : Ctx) (l : L) out resp r :
  outcome (lambda_handler aws event context) l out = inr resp →
  r ∈ body resp →
  ∃ client function,
    function ∈ yielded_functions (list_functions aws client)
    ∧ FunctionName r = summary_FunctionName function
    ∧ match get_function_configuration aws client (FunctionName r) with
      | inr config =>
          Runtime r = default "Unknown" (config_Runtime config)
          ∧ get_deprecation_info (Runtime r) = inr (DeprecationInfo r)
      | inl e =>
          is_ClientError e = true
          ∧ Runtime r = "Error retrieving" ∧ DeprecationInfo r = "Unknown"
      end.
Proof.
  intros Hrun Hin.
  destruct (body_row_origin aws event context l out resp r Hrun Hin)
    as (described & account & assumed & region & chunk & _ & _ & _ & _ & Henum & Hr).
  destruct (enumerated_row_origin aws _ _ _ _ _ Henum Hr) as (function & Hf & Hrow).
  exists (LambdaClient (assumed_session assumed) region), function.
  destruct Hrow as (_ & _ & Hname & _ & Hstatus). rewrite Hname.
  split; [done|]. split; [done|].
  destruct (get_function_configuration aws _ _) as [[s|k|s]|config]; done.
Qed.

Lemma sample_run :
  outcome (lambda_handler Sample.aws tt tt) tt [] = inr Sample.expected_response.
Proof. vm_compute. reflexivity. Qed.

Lemma deprecation_info_derived_from_runtime_witness :
  let r := Row "111" "us-east-1" "fb" (summary_FunctionArn Sample.fb)
             "Error retrieving" "Unknown" in
  ∃ client function,
    function ∈ yielded_functions (list_functions Sample.aws client)
    ∧ FunctionName r = summary_FunctionName function
    ∧ match get_function_configuration Sample.aws client (FunctionName r) with
      | inr config =>
          Runtime r = default "Unknown" (config_Runtime config)
          ∧ get_deprecation_info (Runtime r) = inr (DeprecationInfo r)
      | inl e =>
          is_ClientError e = true
          ∧ Runtime r = "Error retrieving" ∧ DeprecationInfo r = "Unknown"
      end.
Proof.
  apply (deprecation_info_derived_from_runtime Sample.aws tt tt tt []
           Sample.expected_response).
  - vm_compute. reflexivity.
  - right. left.
Defined.

(** Claim C10.  A row is determined by its six fields AccountId, Region,
    FunctionName, FunctionArn, Runtime and DeprecationInfo; the rows the
    enumerator returns carry the account identifier and the region it was
    called with; and every row of the response lies in the chunk that the
    enumerator returned for a listed account, whose role was assumed, and a
    listed region, and carries that account's Id and that region. *)
Theorem rows_attributable_to_their_pair :
  (∀ r : row,
     r = {| AccountId := AccountId r; Region := Region r;
            FunctionName := FunctionName r; FunctionArn := FunctionArn r;
            Runtime := Runtime r; DeprecationInfo := DeprecationInfo r |})
  ∧ (∀ aws session account_id region L (l : L) out rows r,
       outcome (list_functions_in_account aws session account_id region) l out
         = inr rows →
       r ∈ rows → AccountId r = account_id ∧ Region r = region)
  ∧ (∀ aws Ev Ctx (event : Ev) (context : Ctx) L (l : L) out resp r,
       outcome (lambda_handler aws event context) l out = inr resp →
       r ∈ body resp →
       ∃ described account assumed_role region chunk,
         describe_regions aws = inr described
         ∧ account ∈ yielded_accounts (list_accounts aws)
         ∧ region ∈ map RegionName (Regions described)
         ∧ assume_role aws (role_to_assume_format (Id account))
             "ListLambdaFunctionsSession" = inr assumed_role
         ∧ outcome (list_functions_in_account (L:=L) aws
                      (assumed_session assumed_role) (Id account) region) l out
           = inr chunk
         ∧ r ∈ chunk
         ∧ AccountId r = Id account ∧ Region r = region).
Proof.
  assert (Henum : ∀ aws session account_id region rows r,
            enumerated aws session account_id region = inr rows →
            r ∈ rows → AccountId r = account_id ∧ Region r = region).
  { intros aws session account_id region rows r Hrows Hin.
    destruct (enumerated_row_origin aws _ _ _ _ _ Hrows Hin)
      as (function & _ & Hacc & Hreg & _).
    done. }
  split; [by intros []|]. split.
  - intros aws session account_id region L l out rows r Hrun.
    rewrite list_functions_in_account_outcome in Hrun. by apply (Henum aws session _ _ rows).
  - intros aws Ev Ctx event context L l out resp r Hrun Hin.
    destruct (body_row_origin aws event context l out resp r Hrun Hin)
      as (described & account & assumed & region & chunk
          & Hdescribed & Haccount & Hrole & Hregion & Hchunk & Hr).
    exists described, account, assumed, region, chunk.
    rewrite list_functions_in_account_outcome.
    destruct (Henum _ _ _ _ _ _ Hchunk Hr). done.
Qed.

Lemma rows_attributable_to_their_pair_witness :
  outcome (list_functions_in_account Sample.aws Sample.session_111 "111" "eu-west-1")
    tt []
  = inr [Row "111" "eu-west-1" "fa" (summary_FunctionArn Sample.fa)
           "python3.12" "No scheduled deprecation"]
  ∧ AccountId (Row "111" "eu-west-1" "fa" (summary_FunctionArn Sample.fa)
                 "python3.12" "No scheduled deprecation") = "111"
  ∧ Region (Row "111" "eu-west-1" "fa" (summary_FunctionArn Sample.fa)
              "python3.12" "No scheduled deprecation") = "eu-west-1".
Proof.
  assert (Hrun : outcome (list_functions_in_account Sample.aws Sample.session_111
                            "111" "eu-west-1") tt []
                 = inr [Row "111" "eu-west-1" "fa" (summary_FunctionArn Sample.fa)
                          "python3.12" "No scheduled deprecation"]).
  { vm_compute. reflexivity. }
  split; [exact Hrun|].
  apply (proj1 (proj2 rows_attributable_to_their_pair)
           Sample.aws Sample.session_111 "111" "eu-west-1" unit tt [] _ _ Hrun).
  left.
Defined.

(** Claim C7.  The body of the response is the concatenation, over the
    accounts in directory-listing order, of each account's rows, which are
    the concatenation over the regions in region-listing order of what the
    enumerator returned for the pair (nothing for an account whose role
    assumption raised a ClientError); and what the enumerator returns lists
    the functions in the order the function listing yielded them. *)
Theorem aggregate_in_listing_order
    (aws : AWS) {L Ev Ctx} (event : Ev) (context : Ctx) (l : L) out resp :
  outcome (lambda_handler aws event context) l out = inr resp →
  ∃ described per_account,
    describe_regions aws = inr described
    ∧ body resp = concat per_account
    ∧ Forall2 (account_rows aws (map RegionName (Regions described)))
        (yielded_accounts (list_accounts aws)) per_account
    ∧ ∀ session account_id region chunk,
        enumerated aws session account_id region = inr chunk →
        map (λ r, FunctionSummary (FunctionName r) (FunctionArn r)) chunk
        = yielded_functions (list_functions aws (LambdaClient session region)).
Proof.
  intros Hrun.
  pose proof (lambda_handler_run aws event context l out) as H. rewrite Hrun in H.
  destruct H as (_ & _ & described & Hdescribed & per_account & Hbody & Hper).
  exists described, per_account. split; [done|]. split; [done|]. split; [done|].
  intros session account_id region chunk Hchunk.
  pose proof (enumerated_run aws session account_id region) as Henum.
  cbn zeta in Henum. rewrite Hchunk in Henum. destruct Henum as [Hrows _].
  by eapply Forall2_row_for_summaries.
Qed.

Lemma aggregate_in_listing_order_witness :
  ∃ described per_account,
    describe_regions Sample.aws = inr described
    ∧ body Sample.expected_response = concat per_account
    ∧ Forall2 (account_rows Sample.aws (map RegionName (Regions described)))
        (yielded_accounts (list_accounts Sample.aws)) per_account
    ∧ ∀ session account_id region chunk,
        enumerated Sample.aws session account_id region = inr chunk →
        map (λ r, FunctionSummary (FunctionName r) (FunctionArn r)) chunk
        = yielded_functions (list_functions Sample.aws (LambdaClient session region)).
Proof.
  apply (aggregate_in_listing_order Sample.aws tt tt tt []).
  vm_compute. reflexivity.
Defined.

(** The handler returns when the two top-level listings succeed and nothing
    but a [ClientError] is raised below them. *)
Lemma lambda_handler_returns aws described {L Ev Ctx}
    (event : Ev) (context : Ctx) (l : L) out :
  ending (list_accounts aws) = None →
  describe_regions aws = inr described →
  raises_only_ClientError aws →
  ∃ resp, outcome (lambda_handler aws event context) l out = inr resp.
Proof.
  intros Hend Hdescribed (Hrole & Hlist & Hfetch).
  pose proof (lambda_handler_run aws event context l out) as H.
  destruct (outcome (lambda_handler aws event context) l out) as [e|resp];
    [|by eexists].
  destruct H as [H|[[_ H]|(_ & described' & _ & account & _ & He & H)]];
    [congruence..|].
  destruct (assume_role aws _ _) as [e'|assumed] eqn:Hassume.
  - subst e'. apply Hrole in Hassume. congruence.
  - destruct H as (region & _ & Henum).
    destruct (enumerated_returns aws (assumed_session assumed) (Id account) region)
      as [rows Hrows]; [by eauto..|congruence].
Qed.

(** Claim C6, amended.  When the account listing and the region listing
    succeed and no role assumption, function listing or configuration fetch
    raises anything but a ClientError, the handler returns a response with
    statusCode 200 whose body is the concatenation of the accounts' rows;
    and when the account listing is empty and the region listing succeeds,
    it returns statusCode 200 with an empty body. *)
Theorem success_envelope_unless_other_exception :
  (∀ aws described Ev Ctx (event : Ev) (context : Ctx) L (l : L) out,
     ending (list_accounts aws) = None →
     describe_regions aws = inr described →
     raises_only_ClientError aws →
     ∃ resp,
       outcome (lambda_handler aws event context) l out = inr resp
       ∧ statusCode resp = 200%Z
       ∧ ∃ per_account,
           body resp = concat per_account
           ∧ Forall2 (account_rows aws (map RegionName (Regions described)))
               (yielded_accounts (list_accounts aws)) per_account)
  ∧ (∀ aws described Ev Ctx (event : Ev) (context : Ctx) L (l : L) out,
       ending (list_accounts aws) = None →
       yielded_accounts (list_accounts aws) = [] →
       describe_regions aws = inr described →
       outcome (lambda_handler aws event context) l out
       = inr {| statusCode := 200; body := [] |}).
Proof.
  split.
  - intros aws described Ev Ctx event context L l out Hend Hdescribed Honly.
    destruct (lambda_handler_returns aws described event context l out)
      as [resp Hresp]; [done..|].
    exists resp. split; [done|].
    pose proof (lambda_handler_run aws event context l out) as H.
    rewrite Hresp in H.
    destruct H as (Hstatus & _ & described' & Hdescribed' & per_account & Hbody & Hper).
    split; [done|]. exists per_account. split; [done|].
    congruence.
  - intros aws described Ev Ctx event context L l out Hend Hnone Hdescribed.
    pose proof (lambda_handler_run aws event context l out) as H.
    destruct (outcome (lambda_handler aws event context) l out) as [e|resp].
    + destruct H as [H|[[_ H]|(_ & described' & _ & account & Hin & _)]];
        [congruence..|].
      rewrite Hnone in Hin. by apply elem_of_nil in Hin.
    + destruct H as (Hstatus & _ & described' & _ & per_account & Hbody & Hper).
      rewrite Hnone in Hper. apply Forall2_nil_inv_l in Hper. subst per_account.
      destruct resp as [status rows]. cbn in *. by subst.
Qed.

Lemma sample_raises_only_ClientError : raises_only_ClientError Sample.aws.
Proof.
  split; [|split].
  - intros role_arn session_name e. cbn.
    destruct (String.eqb _ _); [by intros [= <-] | discriminate].
  - intros client e. cbn.
    destruct (String.eqb _ _); cbn; [discriminate | by intros [= <-]].
  - intros client name e. cbn.
    destruct (String.eqb name "fb"); [by intros [= <-]|].
    destruct (String.eqb name "fc"); discriminate.
Qed.

Lemma success_envelope_unless_other_exception_witness :
  (∃ resp,
     outcome (lambda_handler Sample.aws tt tt) tt [] = inr resp
     ∧ statusCode resp = 200%Z
     ∧ ∃ per_account,
         body resp = concat per_account
         ∧ Forall2 (account_rows Sample.aws ["us-east-1"; "eu-west-1"])
             (yielded_accounts (list_accounts Sample.aws)) per_account)
  ∧ outcome (lambda_handler Sample.empty_organization tt tt) tt []
    = inr {| statusCode := 200; body := [] |}.
Proof.
  split.
  - apply (proj1 success_envelope_unless_other_exception Sample.aws
             (DescribeRegionsResponse
                [RegionDescription "us-east-1"; RegionDescription "eu-west-1"])).
    + reflexivity.
    + reflexivity.
    + exact sample_raises_only_ClientError.
  - apply (proj2 success_envelope_unless_other_exception Sample.empty_organization
             (DescribeRegionsResponse
                [RegionDescription "us-east-1"; RegionDescription "eu-west-1"]));
      reflexivity.
Defined.

(** Claim C6 as stated fails: both top-level listings succeed, one
    configuration fetch raises an exception that is not a ClientError, and
    the handler raises it instead of returning a response. *)
Lemma other_exception_aborts_the_run :
  ending (list_accounts Sample.fetch_times_out) = None
  ∧ (∃ described, describe_regions Sample.fetch_times_out = inr described)
  ∧ outcome (lambda_handler Sample.fetch_times_out tt tt) tt []
    = inl (OtherException "ReadTimeoutError")
  ∧ ¬ ∃ resp, outcome (lambda_handler Sample.fetch_times_out tt tt) tt [] = inr resp.
Proof.
  assert (Hrun : outcome (lambda_handler Sample.fetch_times_out tt tt) tt []
                 = inl (OtherException "ReadTimeoutError")).
  { vm_compute. reflexivity. }
  split; [reflexivity|]. split; [by eexists|]. split; [exact Hrun|].
  intros [resp Hresp]. rewrite Hrun in Hresp. discriminate.
Qed.

(** Claim C5, amended.  When the role assumption raises a ClientError for a
    listed account A and succeeds for a listed account B, and nothing but a
    ClientError is raised anywhere below the two top-level listings, the
    handler returns statusCode 200, no row of the body has the Id of A, and
    the body contains, contiguous and in region order, the rows the
    enumerator returns for B in each region. *)
Theorem failed_assumption_skips_only_that_account
    (aws : AWS) (described : describe_regions_response)
    (A B : account) (s : string) (assumed_B : assume_role_response)
    {L Ev Ctx} (event : Ev) (context : Ctx) (l : L) out :
  ending (list_accounts aws) = None →
  describe_regions aws = inr described →
  A ∈ yielded_accounts (list_accounts aws) →
  B ∈ yielded_accounts (list_accounts aws) →
  assume_role aws (role_to_assume_format (Id A)) "ListLambdaFunctionsSession"
    = inl (ClientError s) →
  assume_role aws (role_to_assume_format (Id B)) "ListLambdaFunctionsSession"
    = inr assumed_B →
  raises_only_ClientError aws →
  ∃ resp,
    outcome (lambda_handler aws event context) l out = inr resp
    ∧ statusCode resp = 200%Z
    ∧ (∀ r, r ∈ body resp → AccountId r ≠ Id A)
    ∧ ∃ chunks before after,
        Forall2 (λ region chunk,
                   enumerated aws (assumed_session assumed_B) (Id B) region
                   = inr chunk)
          (map RegionName (Regions described)) chunks
        ∧ body resp = (before ++ concat chunks ++ after)%list.
Proof.
  intros Hend Hdescribed HA HB HroleA HroleB Honly.
  destruct (lambda_handler_returns aws described event context l out)
    as [resp Hresp]; [done..|].
  exists resp. split; [done|].
  pose proof (lambda_handler_run aws event context l out) as H. rewrite Hresp in H.
  destruct H as (Hstatus & _ & described' & Hdescribed' & per_account & Hbody & Hper).
  assert (described' = described) as -> by congruence.
  split; [done|]. split.
  - intros r Hr HrA.
    destruct (body_row_origin aws event context l out resp r Hresp Hr)
      as (d & account & assumed & region & chunk & _ & _ & Hrole & _ & Hchunk & Hin).
    destruct (enumerated_row_origin aws _ _ _ _ _ Hchunk Hin)
      as (function & _ & Hacc & _).
    rewrite Hacc in HrA. rewrite HrA in Hrole. congruence.
  - apply list_elem_of_split in HB as (accts1 & accts2 & Hsplit).
    rewrite Hsplit in Hper.
    apply Forall2_app_inv_l in Hper as (per1 & per2 & Hper1 & Hper2 & ->).
    apply Forall2_cons_inv_l in Hper2 as (rows_B & per3 & HrowsB & Hper3 & ->).
    unfold account_rows in HrowsB. rewrite HroleB in HrowsB.
    destruct HrowsB as (chunks & -> & Hchunks).
    exists chunks, (concat per1), (concat per3). split; [done|].
    by rewrite Hbody, concat_app.
Qed.

Lemma failed_assumption_skips_only_that_account_witness :
  ∃ resp,
    outcome (lambda_handler Sample.aws tt tt) tt [] = inr resp
    ∧ statusCode resp = 200%Z
    ∧ (∀ r, r ∈ body resp → AccountId r ≠ "222")
    ∧ ∃ chunks before after,
        Forall2 (λ region chunk,
                   enumerated Sample.aws Sample.session_111 "111" region = inr chunk)
          ["us-east-1"; "eu-west-1"] chunks
        ∧ body resp = (before ++ concat chunks ++ after)%list.
Proof.
  apply (failed_assumption_skips_only_that_account Sample.aws
           (DescribeRegionsResponse
              [RegionDescription "us-east-1"; RegionDescription "eu-west-1"])
           (Account "222") (Account "111") "AccessDenied"
           (AssumeRoleResponse
              (Credentials (role_to_assume_format "111") "secret" "token"))).
  - reflexivity.
  - reflexivity.
  - right. left.
  - left.
  - reflexivity.
  - reflexivity.
  - exact sample_raises_only_ClientError.
Defined.

(** Claim C5 as stated fails: the role assumption fails for account 222 with
    an exception that is not a ClientError and succeeds for account 111,
    and the handler raises instead of returning statusCode 200. *)
Lemma failed_assumption_may_abort_the_run :
  yielded_accounts (list_accounts Sample.assumption_times_out)
    = [Account "222"; Account "111"]
  ∧ assume_role Sample.assumption_times_out (role_to_assume_format "222")
      "ListLambdaFunctionsSession" = inl (OtherException "ConnectTimeoutError")
  ∧ (∃ assumed, assume_role Sample.assumption_times_out (role_to_assume_format "111")
                  "ListLambdaFunctionsSession" = inr assumed)
  ∧ outcome (lambda_handler Sample.assumption_times_out tt tt) tt []
    = inl (OtherException "ConnectTimeoutError")
  ∧ ¬ ∃ resp, outcome (lambda_handler Sample.assumption_times_out tt tt) tt []
              = inr resp ∧ statusCode resp = 200%Z.
Proof.
  assert (Hrun : outcome (lambda_handler Sample.assumption_times_out tt tt) tt []
                 = inl (OtherException "ConnectTimeoutError")).
  { vm_compute. reflexivity. }
  split; [reflexivity|]. split; [reflexivity|]. split; [by eexists|].
  split; [exact Hrun|].
  intros (resp & Hresp & _). rewrite Hrun in Hresp. discriminate.
Qed.

(** Claim C4, amended.  When the function listing raises a ClientError after
    some pages, and no configuration fetch for a function listed before it
    raises anything but a ClientError, the enumerator returns: its result
    holds one row for each function yielded before the failure, in order,
    the caller's frame is untouched, and the loop over the regions goes on
    with the remaining regions after appending these rows. *)
Theorem listing_ClientError_keeps_accumulated_rows
    (aws : AWS) (session : Session) (account_id region s : string)
    {L} (l : L) out :
  let client := LambdaClient session region in
  ending (list_functions aws client) = Some (ClientError s) →
  (∀ f e, f ∈ yielded_functions (list_functions aws client) →
     get_function_configuration aws client (summary_FunctionName f) = inl e →
     is_ClientError e = true) →
  ∃ rows,
    outcome (list_functions_in_account aws session account_id region) l out
      = inr rows
    ∧ Forall2 (row_for aws client account_id region)
        (yielded_functions (list_functions aws client)) rows
    ∧ (list_functions_in_account aws session account_id region l out).1.2 = l
    ∧ ∀ rest frame out0, ∃ out1,
        list_all_regions aws session account_id (region :: rest) frame out0
        = list_all_regions aws session account_id rest
            {| accounts := accounts frame;
               all_functions := (all_functions frame ++ rows)%list |} out1.
Proof.
  intros client Hend Hfetch.
  destruct (enumerated_returns aws session account_id region) as [rows Hrows].
  { done. }
  { fold client. intros e He. rewrite Hend in He. by injection He as <-. }
  exists rows. rewrite list_functions_in_account_outcome. split; [done|].
  pose proof (enumerated_run aws session account_id region) as Hrun.
  cbn zeta in Hrun. rewrite Hrows in Hrun. destruct Hrun as [Hall _].
  split; [done|]. split; [apply list_functions_in_account_frame|].
  intros rest frame out0. unfold list_all_regions. cbn [for_each].
  unfold bind at 1 2.
  pose proof (list_functions_in_account_outcome aws session account_id region
                frame out0) as Hout.
  pose proof (list_functions_in_account_frame aws session account_id region
                frame out0) as Hframe.
  unfold outcome in Hout. rewrite Hrows in Hout.
  destruct (list_functions_in_account aws session account_id region frame out0)
    as [[r l1] o1]. cbn in Hout, Hframe. subst r l1.
  exists o1. reflexivity.
Qed.

Lemma listing_ClientError_keeps_accumulated_rows_witness :
  ∃ rows,
    outcome (list_functions_in_account Sample.aws Sample.session_111
               "111" "eu-west-1") tt [] = inr rows
    ∧ Forall2 (row_for Sample.aws (LambdaClient Sample.session_111 "eu-west-1")
                 "111" "eu-west-1")
        [Sample.fa] rows
    ∧ (list_functions_in_account Sample.aws Sample.session_111
         "111" "eu-west-1" tt []).1.2 = tt
    ∧ ∀ rest frame out0, ∃ out1,
        list_all_regions Sample.aws Sample.session_111 "111"
          ("eu-west-1" :: rest) frame out0
        = list_all_regions Sample.aws Sample.session_111 "111" rest
            {| accounts := accounts frame;
               all_functions := (all_functions frame ++ rows)%list |} out1.
Proof.
  apply (listing_ClientError_keeps_accumulated_rows Sample.aws Sample.session_111
           "111" "eu-west-1" "InvalidRegion" tt []).
  - reflexivity.
  - intros f e _. cbn.
    destruct (String.eqb _ "fb"); [by intros [= <-]|].
    destruct (String.eqb _ "fc"); discriminate.
Defined.

(** Claim C4 as stated fails: the listing yields one function and then
    raises an exception that is not a ClientError, and the enumerator
    raises it to its caller instead of returning the accumulated row. *)
Lemma listing_other_exception_propagates :
  yielded_functions
    (list_functions Sample.listing_times_out
       (LambdaClient Sample.session_111 "eu-west-1")) = [Sample.fa]
  ∧ ending (list_functions Sample.listing_times_out
              (LambdaClient Sample.session_111 "eu-west-1"))
    = Some (OtherException "EndpointConnectionError")
  ∧ outcome (list_functions_in_account Sample.listing_times_out Sample.session_111
               "111" "eu-west-1") tt []
    = inl (OtherException "EndpointConnectionError")
  ∧ ¬ ∃ rows,
        outcome (list_functions_in_account Sample.listing_times_out
                   Sample.session_111 "111" "eu-west-1") tt [] = inr rows.
Proof.
  assert (Hrun : outcome (list_functions_in_account Sample.listing_times_out
                            Sample.session_111 "111" "eu-west-1") tt []
                 = inl (OtherException "EndpointConnectionError")).
  { vm_compute. reflexivity. }
  split; [reflexivity|]. split; [reflexivity|]. split; [exact Hrun|].
  intros [rows Hrows]. rewrite Hrun in Hrows. discriminate.
Qed.

(** Claim C3, amended.  When the listing completes with N functions, the
    configuration fetch raises a ClientError for exactly one of them and
    returns for the others, the enumerator returns N rows in listing order:
    the failing function's row has Runtime "Error retrieving" and
    DeprecationInfo "Unknown", and every other row has the runtime of its
    configuration ("Unknown" when none is declared) and the catalog lookup
    of that runtime. *)
Theorem one_ClientError_fetch_keeps_every_row
    (aws : AWS) (session : Session) (account_id region : string)
    (i : nat) (failing : function_summary) (s : string) {L} (l : L) out :
  let client := LambdaClient session region in
  let summaries := yielded_functions (list_functions aws client) in
  ending (list_functions aws client) = None →
  summaries !! i = Some failing →
  get_function_configuration aws client (summary_FunctionName failing)
    = inl (ClientError s) →
  (∀ j f, j ≠ i → summaries !! j = Some f →
     ∃ config,
       get_function_configuration aws client (summary_FunctionName f) = inr config) →
  ∃ rows,
    outcome (list_functions_in_account aws session account_id region) l out
      = inr rows
    ∧ length rows = length summaries
    ∧ (∃ r, rows !! i = Some r
            ∧ FunctionName r = summary_FunctionName failing
            ∧ FunctionArn r = summary_FunctionArn failing
            ∧ Runtime r = "Error retrieving" ∧ DeprecationInfo r = "Unknown")
    ∧ (∀ j f, j ≠ i → summaries !! j = Some f →
         ∃ r config,
           rows !! j = Some r
           ∧ FunctionName r = summary_FunctionName f
           ∧ FunctionArn r = summary_FunctionArn f
           ∧ get_function_configuration aws client (summary_FunctionName f)
             = inr config
           ∧ Runtime r = default "Unknown" (config_Runtime config)
           ∧ get_deprecation_info (Runtime r) = inr (DeprecationInfo r)).
Proof.
  intros client summaries Hend Hi Hfail Hothers.
  destruct (enumerated_returns aws session account_id region) as [rows Hrows].
  { fold client. intros f e [j Hj]%list_elem_of_lookup Hf.
    destruct (decide (j = i)) as [->|Hne].
    - fold summaries in Hj. rewrite Hi in Hj. injection Hj as <-.
      rewrite Hfail in Hf. by injection Hf as <-.
    - destruct (Hothers j f Hne Hj) as [config Hconfig]. congruence. }
  { fold client. intros e He. congruence. }
  exists rows. rewrite list_functions_in_account_outcome. split; [done|].
  pose proof (enumerated_run aws session account_id region) as Hrun.
  cbn zeta in Hrun. rewrite Hrows in Hrun. destruct Hrun as [Hall _].
  fold client in Hall. fold summaries in Hall.
  split; [symmetry; by eapply Forall2_length|]. split.
  - destruct (Forall2_lookup_l _ _ _ _ _ Hall Hi)
      as (r & Hr & _ & _ & Hname & Harn & Hstatus).
    rewrite Hfail in Hstatus. exists r. by destruct Hstatus.
  - intros j f Hne Hj.
    destruct (Forall2_lookup_l _ _ _ _ _ Hall Hj)
      as (r & Hr & _ & _ & Hname & Harn & Hstatus).
    destruct (Hothers j f Hne Hj) as [config Hconfig].
    rewrite Hconfig in Hstatus. exists r, config. by destruct Hstatus.
Qed.

Lemma one_ClientError_fetch_keeps_every_row_witness :
  ∃ rows,
    outcome (list_functions_in_account Sample.aws Sample.session_111
               "111" "us-east-1") tt [] = inr rows
    ∧ length rows = 3
    ∧ (∃ r, rows !! 1 = Some r
            ∧ FunctionName r = "fb"
            ∧ FunctionArn r = summary_FunctionArn Sample.fb
            ∧ Runtime r = "Error retrieving" ∧ DeprecationInfo r = "Unknown")
    ∧ (∀ j f, j ≠ 1 → [Sample.fa; Sample.fb; Sample.fc] !! j = Some f →
         ∃ r config,
           rows !! j = Some r
           ∧ FunctionName r = summary_FunctionName f
           ∧ FunctionArn r = summary_FunctionArn f
           ∧ get_function_configuration Sample.aws
               (LambdaClient Sample.session_111 "us-east-1")
               (summary_FunctionName f) = inr config
           ∧ Runtime r = default "Unknown" (config_Runtime config)
           ∧ get_deprecation_info (Runtime r) = inr (DeprecationInfo r)).
Proof.
  apply (one_ClientError_fetch_keeps_every_row Sample.aws Sample.session_111
           "111" "us-east-1" 1 Sample.fb "TooManyRequests" tt []).
  - reflexivity.
  - reflexivity.
  - reflexivity.
  - intros j f Hne Hj. destruct j as [|[|[|j]]]; [| done | |done].
    + injection Hj as <-. by eexists.
    + injection Hj as <-. by eexists.
Defined.

(** Claim C3 as stated fails: the listing completes with three functions,
    the configuration fetch fails for exactly one of them with an exception
    that is not a ClientError, and the enumerator raises instead of
    returning three rows. *)
Lemma one_other_exception_fetch_loses_every_row :
  ending (list_functions Sample.fetch_times_out
            (LambdaClient Sample.session_111 "us-east-1")) = None
  ∧ yielded_functions
      (list_functions Sample.fetch_times_out
         (LambdaClient Sample.session_111 "us-east-1"))
    = [Sample.fa; Sample.fb; Sample.fc]
  ∧ (∃ config, get_function_configuration Sample.fetch_times_out
                 (LambdaClient Sample.session_111 "us-east-1") "fa" = inr config)
  ∧ get_function_configuration Sample.fetch_times_out
      (LambdaClient Sample.session_111 "us-east-1") "fb"
    = inl (OtherException "ReadTimeoutError")
  ∧ (∃ config, get_function_configuration Sample.fetch_times_out
                 (LambdaClient Sample.session_111 "us-east-1") "fc" = inr config)
  ∧ outcome (list_functions_in_account Sample.fetch_times_out Sample.session_111
               "111" "us-east-1") tt []
    = inl (OtherException "ReadTimeoutError")
  ∧ ¬ ∃ rows,
        outcome (list_functions_in_account Sample.fetch_times_out
                   Sample.session_111 "111" "us-east-1") tt [] = inr rows
        ∧ length rows = 3.
Proof.
  assert (Hrun : outcome (list_functions_in_account Sample.fetch_times_out
                            Sample.session_111 "111" "us-east-1") tt []
                 = inl (OtherException "ReadTimeoutError")).
  { vm_compute. reflexivity. }
  split; [reflexivity|]. split; [reflexivity|]. split; [by eexists|].
  split; [reflexivity|]. split; [by eexists|]. split; [exact Hrun|].
  intros (rows & Hrows & _). rewrite Hrun in Hrows. discriminate.
Qed.

Example sample_output :
  printed (lambda_handler Sample.aws tt tt) tt []
  = [ "Error getting configuration for function fb in account 111, region us-east-1: TooManyRequests";
      "Error listing functions in account 111, region eu-west-1: InvalidRegion";
      "Error assuming role in account 222: AccessDenied";
      "Error getting configuration for function fb in account 333, region us-east-1: TooManyRequests";
      "Error listing functions in account 333, region eu-west-1: InvalidRegion" ].
Proof. vm_compute. reflexivity. Qed.

(** *** What the program prints *)
Section Log.
Variable aws : AWS.
Variables (client : lambda_client) (account_id region : string).

Lemma report_function_printed function functions out r l' out' :
  report_function aws client account_id region function functions out = (r, l', out') →
  match r with
  | inr _ =>
      out' = (out ++ configuration_error_lines aws client account_id region
                       [function])%list
  | inl _ => True
  end.
Proof.
  unfold report_function, resolve_runtime, bind, try_except_ClientError,
    configuration_error_lines.
  cbn [flat_map].
  destruct (get_function_configuration aws client (summary_FunctionName function))
    as [e|config].
  - destruct e as [s|k|s]; cbn [lift raise ret print is_ClientError modify];
      intros [= <- <- <-]; [|done..].
    by rewrite app_nil_r.
  - destruct (get_deprecation_info_returns (default "Unknown" (config_Runtime config)))
      as [status Hstatus].
    cbn [lift ret]. rewrite Hstatus. cbn [lift ret modify].
    intros [= <- <- <-]. by rewrite !app_nil_r.
Qed.

Lemma configuration_error_lines_app fs1 fs2 :
  configuration_error_lines aws client account_id region (fs1 ++ fs2)
  = (configuration_error_lines aws client account_id region fs1
     ++ configuration_error_lines aws client account_id region fs2)%list.
Proof. unfold configuration_error_lines. apply flat_map_app. Qed.

Lemma report_functions_printed fs : ∀ functions out r l' out',
  for_each fs (report_function aws client account_id region) functions out
    = (r, l', out') →
  match r with
  | inr _ =>
      out' = (out ++ configuration_error_lines aws client account_id region fs)%list
  | inl _ => True
  end.
Proof.
  induction fs as [|f fs IH]; intros functions out r l' out'.
  - intros [= <- <- <-]. by rewrite app_nil_r.
  - cbn [for_each]. unfold bind at 1.
    destruct (report_function aws client account_id region f functions out)
      as [[[e|[]] l1] o1] eqn:Hf; apply report_function_printed in Hf.
    + by intros [= <- <- <-].
    + subst o1. intros H. apply IH in H. destruct r as [e|[]]; [done|].
      rewrite H, <- app_assoc.
      change (f :: fs) with ([f] ++ fs)%list.
      by rewrite configuration_error_lines_app.
Qed.

Lemma report_pages_printed pages : ∀ functions out r l' out',
  for_page pages
    (λ page, for_each (Functions page) (report_function aws client account_id region))
    functions out = (r, l', out') →
  match r with
  | inr _ => True
  | inl e => is_ClientError e = true
  end →
  out' = (out ++ configuration_error_lines aws client account_id region
                   (yielded_functions pages))%list.
Proof.
  induction pages as [|page rest IH|e0]; intros functions out r l' out'.
  - intros [= <- <- <-] _. by rewrite app_nil_r.
  - cbn [for_page]. unfold bind at 1.
    destruct (for_each (Functions page) _ functions out) as [[[e|[]] l1] o1] eqn:Hp.
    + apply report_functions_run in Hp as [He _].
      intros [= <- <- <-] He'. congruence.
    + apply report_functions_printed in Hp. subst o1. intros H Hr.
      rewrite (IH _ _ _ _ _ H Hr), <- app_assoc.
      unfold yielded_functions. cbn [yielded map concat].
      by rewrite configuration_error_lines_app.
  - intros [= <- <- <-] _. by rewrite app_nil_r.
Qed.
End Log.

Lemma list_functions_in_account_printed aws session account_id region
    {L} (l : L) out r l' out' :
  list_functions_in_account aws session account_id region l out = (r, l', out') →
  match r with
  | inr _ =>
      out' = (out
              ++ configuration_error_lines aws (LambdaClient session region)
                   account_id region
                   (yielded_functions (list_functions aws (LambdaClient session region)))
              ++ match ending (list_functions aws (LambdaClient session region)) with
                 | Some e => [listing_error_line account_id region e]
                 | None => []
                 end)%list
  | inl _ => True
  end.
Proof.
  unfold list_functions_in_account, call, bind, try_except_ClientError.
  destruct (for_page (list_functions aws (LambdaClient session region)) _ [] out)
    as [[[e|[]] l1] o1] eqn:Hp.
  - destruct (is_ClientError e) eqn:He.
    + cbn [print get]. intros [= <- <- <-].
      pose proof (report_pages_printed _ _ _ _ _ _ _ _ _ _ Hp He) as ->.
      apply report_pages_run in Hp as [(Hend & _)|(He' & _)]; [|congruence].
      rewrite Hend. by rewrite <- app_assoc.
    + by intros [= <- <- <-].
  - cbn [get]. intros [= <- <- <-].
    pose proof (report_pages_printed _ _ _ _ _ _ _ _ _ _ Hp I) as ->.
    apply report_pages_run in Hp as (Hend & _). rewrite Hend.
    by rewrite app_nil_r.
Qed.

(** X4.  When the enumerator returns, what it has printed is, after what
    was printed before, one line for each listed function whose
    configuration fetch raised a ClientError, in listing order, followed by
    one line for the listing's own failure when it ended in one; nothing
    else is printed and nothing printed before is lost. *)
Theorem enumerator_prints_one_line_per_handled_failure
    (aws : AWS) (session : Session) (account_id region : string)
    {L} (l : L) out rows :
  outcome (list_functions_in_account aws session account_id region) l out
    = inr rows →
  printed (list_functions_in_account aws session account_id region) l out
  = (out
     ++ configuration_error_lines aws (LambdaClient session region)
          account_id region
          (yielded_functions (list_functions aws (LambdaClient session region)))
     ++ match ending (list_functions aws (LambdaClient session region)) with
        | Some e => [listing_error_line account_id region e]
        | None => []
        end)%list.
Proof.
  unfold outcome, printed.
  destruct (list_functions_in_account aws session account_id region l out)
    as [[r l'] out'] eqn:Hrun.
  cbn [fst snd]. intros ->.
  by apply list_functions_in_account_printed in Hrun.
Qed.

Lemma enumerator_prints_one_line_per_handled_failure_witness :
  printed (list_functions_in_account Sample.aws Sample.session_111
             "111" "eu-west-1") tt ["earlier line"]
  = [ "earlier line";
      "Error listing functions in account 111, region eu-west-1: InvalidRegion" ]
  ∧ printed (list_functions_in_account Sample.aws Sample.session_111
               "111" "us-east-1") tt []
    = [ "Error getting configuration for function fb in account 111, region us-east-1: TooManyRequests" ].
Proof.
  split.
  - apply (enumerator_prints_one_line_per_handled_failure Sample.aws
             Sample.session_111 "111" "eu-west-1" tt ["earlier line"]
             [Row "111" "eu-west-1" "fa" (summary_FunctionArn Sample.fa)
                "python3.12" "No scheduled deprecation"]).
    vm_compute. reflexivity.
  - apply (enumerator_prints_one_line_per_handled_failure Sample.aws
             Sample.session_111 "111" "us-east-1" tt []
             (firstn 3 (Sample.rows_in "111"))).
    vm_compute. reflexivity.
Defined.

Section HandlerLog.
Variable aws : AWS.

Lemma list_functions_in_account_lines {L} session account_id region (l : L) out :
  printed (list_functions_in_account aws session account_id region) l out
  = (out ++ enumerator_lines aws session account_id region)%list.
Proof.
  unfold enumerator_lines, printed, list_functions_in_account, call.
  set (m := bind _ _).
  assert (Hm : steady m).
  { apply steady_bind; [|intros _; apply steady_get].
    apply steady_try; [|intros e; apply steady_print].
    apply steady_for_page. intros page. apply steady_for_each, steady_report_function. }
  rewrite (Hm [] out). by destruct (m [] []) as [[r l'] o].
Qed.

Lemma list_all_regions_printed session account_id regions : ∀ frame out r l' out',
  list_all_regions aws session account_id regions frame out = (r, l', out') →
  match r with
  | inr _ =>
      out' = (out ++ concat (map (enumerator_lines aws session account_id) regions))%list
  | inl _ => True
  end.
Proof.
  unfold list_all_regions.
  induction regions as [|region regions IH]; intros frame out r l' out'.
  - intros [= <- <- <-]. by rewrite app_nil_r.
  - cbn [for_each]. unfold bind at 1 2.
    pose proof (list_functions_in_account_lines session account_id region frame out)
      as Hlines. unfold printed in Hlines.
    destruct (list_functions_in_account aws session account_id region frame out)
      as [[[e|functions] l1] o1].
    + by intros [= <- <- <-].
    + cbn [snd] in Hlines. subst o1. unfold modify at 1. intros H.
      apply IH in H. destruct r as [e|[]]; [done|].
      rewrite H. cbn [map concat]. by rewrite <- app_assoc.
Qed.

Lemma list_account_printed regions account frame out r l' out' :
  list_account aws regions account frame out = (r, l', out') →
  match r with
  | inr _ => out' = (out ++ account_lines aws regions account)%list
  | inl _ => True
  end.
Proof.
  unfold list_account, try_except_ClientError, bind, account_lines.
  destruct (assume_role aws _ _) as [e|assumed]; cbn [lift raise ret].
  - destruct (is_ClientError e).
    + cbn [print]. by intros [= <- <- <-].
    + by intros [= <- <- <-].
  - destruct (list_all_regions aws (assumed_session assumed) (Id account) regions
                frame out) as [[[e|[]] l1] o1] eqn:Hloop.
    + apply list_all_regions_run in Hloop as [_ [He _]]. rewrite He.
      by intros [= <- <- <-].
    + apply list_all_regions_printed in Hloop. by intros [= <- <- <-].
Qed.

Lemma list_accounts_loop_printed regions accts : ∀ frame out r l' out',
  for_each accts (list_account aws regions) frame out = (r, l', out') →
  match r with
  | inr _ => out' = (out ++ concat (map (account_lines aws regions) accts))%list
  | inl _ => True
  end.
Proof.
  induction accts as [|account accts IH]; intros frame out r l' out'.
  - intros [= <- <- <-]. by rewrite app_nil_r.
  - cbn [for_each]. unfold bind at 1.
    destruct (list_account aws regions account frame out) as [[[e|[]] l1] o1] eqn:Hone.
    + by intros [= <- <- <-].
    + apply list_account_printed in Hone. subst o1. intros H. apply IH in H.
      destruct r as [e|[]]; [done|].
      rewrite H. cbn [map concat]. by rewrite <- app_assoc.
Qed.

Lemma lambda_handler_printed {L Ev Ctx} (event : Ev) (context : Ctx)
    (l : L) out r l' out' :
  lambda_handler aws event context l out = (r, l', out') →
  match r with
  | inr _ =>
      ∃ described, describe_regions aws = inr described ∧
        out' = (out ++ concat (map (account_lines aws
                                      (map RegionName (Regions described)))
                                 (yielded_accounts (list_accounts aws))))%list
  | inl _ => True
  end.
Proof.
  unfold lambda_handler, call. unfold bind at 1. rewrite list_accounts_run.
  destruct (ending (list_accounts aws)) as [e|]; [by intros [= <- <- <-]|].
  unfold bind at 1.
  destruct (describe_regions aws) as [e|described]; cbn [lift raise ret];
    [by intros [= <- <- <-]|].
  unfold bind at 1. cbn [get accounts all_functions app]. unfold bind at 1.
  destruct (for_each _ _ _ out) as [[[e|[]] l1] o1] eqn:Hloop;
    [by intros [= <- <- <-]|].
  apply list_accounts_loop_printed in Hloop. subst o1.
  unfold bind, get, ret. intros [= <- <- <-]. by exists described.
Qed.
End HandlerLog.

(** X5.  When the handler returns, what it has printed is, after what was
    printed before, the lines of the listed accounts in directory order:
    for an account whose role assumption raised a ClientError the single
    line naming the account, and for any other account what the enumerator
    printed in each region, in region order. *)
Theorem handler_prints_the_accounts_lines_in_order
    (aws : AWS) {L Ev Ctx} (event : Ev) (context : Ctx) (l : L) out resp :
  outcome (lambda_handler aws event context) l out = inr resp →
  ∃ described,
    describe_regions aws = inr described
    ∧ printed (lambda_handler aws event context) l out
      = (out ++ concat (map (account_lines aws (map RegionName (Regions described)))
                          (yielded_accounts (list_accounts aws))))%list.
Proof.
  unfold outcome, printed.
  destruct (lambda_handler aws event context l out) as [[r l'] out'] eqn:Hrun.
  cbn [fst snd]. intros ->.
  by apply lambda_handler_printed in Hrun.
Qed.

Lemma handler_prints_the_accounts_lines_in_order_witness :
  ∃ described,
    describe_regions Sample.aws = inr described
    ∧ printed (lambda_handler Sample.aws tt tt) tt []
      = ([] ++ concat (map (account_lines Sample.aws
                              (map RegionName (Regions described)))
                         (yielded_accounts (list_accounts Sample.aws))))%list.
Proof.
  apply (handler_prints_the_accounts_lines_in_order Sample.aws tt tt tt []
           Sample.expected_response).
  vm_compute. reflexivity.
Defined.

(** *** When the program raises *)

(** X1.  A failure of the account listing, or of the region listing after
    a completed account listing, is caught nowhere, whatever its class (a
    ClientError included): the handler raises that exception, having
    printed nothing and left the caller's frame as it was. *)
Theorem top_level_failure_aborts_the_run
    (aws : AWS) (e : exception) {L Ev Ctx} (event : Ev) (context : Ctx)
    (l : L) out :
  ending (list_accounts aws) = Some e
  ∨ (ending (list_accounts aws) = None ∧ describe_regions aws = inl e) →
  lambda_handler aws event context l out = (inl e, l, out).
Proof.
  intros Hfail. unfold lambda_handler, call. unfold bind at 1.
  rewrite list_accounts_run.
  destruct Hfail as [->|[-> Hdescribe]]; [done|].
  unfold bind at 1. by rewrite Hdescribe.
Qed.

Lemma top_level_failure_aborts_the_run_witness :
  lambda_handler Variants.directory_denied tt tt tt ["earlier line"]
  = (inl (ClientError "AccessDenied"), tt, ["earlier line"]).
Proof.
  apply (top_level_failure_aborts_the_run Variants.directory_denied
           (ClientError "AccessDenied") tt tt tt ["earlier line"]).
  left. reflexivity.
Defined.

(** X2.  The handler returns a response exactly when the account listing
    completes, the region listing returns, and no listed account lets an
    exception through (its role assumption raises nothing but a
    ClientError and the enumerator returns in every region); and every
    response it returns has statusCode 200. *)
Theorem handler_returns_exactly_when_nothing_escapes
    (aws : AWS) {L Ev Ctx} (event : Ev) (context : Ctx) (l : L) out :
  ((∃ resp, outcome (lambda_handler aws event context) l out = inr resp)
   ↔ ending (list_accounts aws) = None
     ∧ ∃ described,
         describe_regions aws = inr described
         ∧ ∀ account e,
             account ∈ yielded_accounts (list_accounts aws) →
             ¬ account_raises aws (map RegionName (Regions described)) account e)
  ∧ (∀ resp, outcome (lambda_handler aws event context) l out = inr resp →
       statusCode resp = 200%Z).
Proof.
  pose proof (lambda_handler_run aws event context l out) as H.
  split; [split|].
  - intros [resp Hresp]. rewrite Hresp in H.
    destruct H as (_ & Hend & described & Hdescribed & per_account & _ & Hper).
    split; [done|]. exists described. split; [done|].
    intros account e [i Hi]%list_elem_of_lookup [He Hraises].
    destruct (Forall2_lookup_l _ _ _ _ _ Hper Hi) as (rows & _ & Hrows).
    unfold account_rows in Hrows.
    destruct (assume_role aws _ _) as [e'|assumed].
    + destruct Hrows as [He' _]. congruence.
    + destruct Hraises as (region & [j Hj]%list_elem_of_lookup & Hregion).
      destruct Hrows as (chunks & _ & Hchunks).
      destruct (Forall2_lookup_l _ _ _ _ _ Hchunks Hj) as (chunk & _ & Hchunk).
      congruence.
  - intros (Hend & described & Hdescribed & Hnone).
    destruct (outcome (lambda_handler aws event context) l out) as [e|resp];
      [|by eexists].
    destruct H as [H|[[_ H]|(_ & described' & Hdescribed' & account & Hin & Hraises)]];
      [congruence..|].
    assert (described' = described) as -> by congruence.
    by destruct (Hnone account e Hin).
  - intros resp Hresp. rewrite Hresp in H. by destruct H.
Qed.

(** X3.  The enumerator returns exactly when the function listing stops or
    ends in a ClientError and no configuration fetch for a listed function
    raises an exception of another class; otherwise it raises. *)
Theorem enumerator_returns_exactly_when_nothing_escapes
    (aws : AWS) (session : Session) (account_id region : string)
    {L} (l : L) out :
  let client := LambdaClient session region in
  (∃ rows,
     outcome (list_functions_in_account aws session account_id region) l out
     = inr rows)
  ↔ (∀ e, ending (list_functions aws client) = Some e → is_ClientError e = true)
    ∧ (∀ f e, f ∈ yielded_functions (list_functions aws client) →
         get_function_configuration aws client (summary_FunctionName f) = inl e →
         is_ClientError e = true).
Proof.
  intros client. rewrite list_functions_in_account_outcome. split.
  - intros [rows Hrows].
    pose proof (enumerated_run aws session account_id region) as Hrun.
    cbn zeta in Hrun. rewrite Hrows in Hrun. destruct Hrun as [Hall Hend].
    split.
    + intros e He. fold client in Hend.
      destruct Hend as [Hend|[s Hend]]; [congruence|].
      rewrite Hend in He. by injection He as <-.
    + intros f e [i Hi]%list_elem_of_lookup Hf.
      destruct (Forall2_lookup_l _ _ _ _ _ Hall Hi)
        as (r & _ & _ & _ & _ & _ & Hstatus).
      fold client in Hstatus. rewrite Hf in Hstatus. by destruct e.
  - intros [Hend Hfetch]. by apply enumerated_returns.
Qed.

Lemma enumerator_returns_exactly_when_nothing_escapes_witness :
  (∃ rows,
     outcome (list_functions_in_account Sample.aws Sample.session_111
                "111" "eu-west-1") tt [] = inr rows)
  ∧ ¬ (∃ rows,
         outcome (list_functions_in_account Sample.fetch_times_out
                    Sample.session_111 "111" "us-east-1") tt [] = inr rows).
Proof.
  split.
  - apply (proj2 (enumerator_returns_exactly_when_nothing_escapes Sample.aws
                    Sample.session_111 "111" "eu-west-1" tt [])).
    split.
    + intros e [= <-]. reflexivity.
    + intros f e _. cbn.
      destruct (String.eqb _ "fb"); [by intros [= <-]|].
      destruct (String.eqb _ "fc"); discriminate.
  - intros Hreturns.
    apply (proj1 (enumerator_returns_exactly_when_nothing_escapes
                    Sample.fetch_times_out Sample.session_111 "111" "us-east-1"
                    tt [])) in Hreturns as [_ Hfetch].
    specialize (Hfetch Sample.fb (OtherException "ReadTimeoutError")).
    cbn in Hfetch. discriminate Hfetch; [right; left | reflexivity].
Defined.

Lemma handler_returns_exactly_when_nothing_escapes_witness :
  (∃ resp, outcome (lambda_handler Sample.aws tt tt) tt [] = inr resp)
  ∧ statusCode Sample.expected_response = 200%Z.
Proof.
  pose proof (handler_returns_exactly_when_nothing_escapes Sample.aws tt tt tt [])
    as [Hiff Hstatus].
  split.
  - apply Hiff. split; [reflexivity|].
    exists (DescribeRegionsResponse
              [RegionDescription "us-east-1"; RegionDescription "eu-west-1"]).
    split; [reflexivity|].
    intros account e _ [He Hraises].
    destruct (assume_role Sample.aws _ _) as [e'|assumed] eqn:Hrole.
    + subst e'. apply (proj1 sample_raises_only_ClientError) in Hrole. congruence.
    + destruct Hraises as (region & _ & Henum).
      pose proof (enumerated_run Sample.aws (assumed_session assumed) (Id account)
                    region) as Hrun.
      cbn zeta in Hrun. rewrite Henum in Hrun.
      destruct Hrun as [_ [Hend|(f & _ & Hf)]].
      * apply (proj1 (proj2 sample_raises_only_ClientError)) in Hend. congruence.
      * apply (proj2 (proj2 sample_raises_only_ClientError)) in Hf. congruence.
  - apply Hstatus. vm_compute. reflexivity.
Defined.

(** *** Sentinel values of the rows *)

Lemma get_deprecation_info_never_Unknown runtime :
  get_deprecation_info runtime ≠ inr "Unknown".
Proof.
  rewrite get_deprecation_info_unfold.
  destruct (RUNTIME_DEPRECATIONS !! runtime) as [info|]; [|discriminate].
  destruct (deprecated info); [discriminate|].
  destruct (String.eqb (date info) "N/A"); discriminate.
Qed.

Lemma lookup_Unknown_key : RUNTIME_DEPRECATIONS !! "Unknown" = None.
Proof. vm_compute. reflexivity. Qed.

(** X6.  A listed function whose configuration is fetched but declares no
    Runtime gets, at its place in the enumerator's result, a row with
    Runtime "Unknown" and DeprecationInfo
    "No deprecation information available": the default of line 72 goes
    through the catalog lookup like any other runtime, and is not the
    "Unknown" status of a failed fetch. *)
Theorem missing_Runtime_is_looked_up_as_Unknown
    (aws : AWS) (session : Session) (account_id region : string)
    {L} (l : L) out rows (j : nat) (function : function_summary) :
  let client := LambdaClient session region in
  outcome (list_functions_in_account aws session account_id region) l out
    = inr rows →
  yielded_functions (list_functions aws client) !! j = Some function →
  get_function_configuration aws client (summary_FunctionName function)
    = inr {| config_Runtime := None |} →
  rows !! j
  = Some {| AccountId := account_id; Region := region;
            FunctionName := summary_FunctionName function;
            FunctionArn := summary_FunctionArn function;
            Runtime := "Unknown";
            DeprecationInfo := "No deprecation information available" |}.
Proof.
  intros client Hrows Hj Hconfig.
  rewrite list_functions_in_account_outcome in Hrows.
  pose proof (enumerated_run aws session account_id region) as Hrun.
  cbn zeta in Hrun. rewrite Hrows in Hrun. destruct Hrun as [Hall _].
  destruct (Forall2_lookup_l _ _ _ _ _ Hall Hj)
    as (r & Hr & Hacc & Hreg & Hname & Harn & Hstatus).
  fold client in Hstatus. rewrite Hconfig in Hstatus.
  destruct Hstatus as [Hruntime Hinfo]. cbn in Hruntime.
  rewrite Hruntime, get_deprecation_info_unfold, lookup_Unknown_key in Hinfo.
  injection Hinfo as Hinfo. rewrite Hr. f_equal.
  destruct r. cbn in *. by subst.
Qed.

Lemma missing_Runtime_is_looked_up_as_Unknown_witness :
  firstn 3 (Sample.rows_in "111") !! 2
  = Some {| AccountId := "111"; Region := "us-east-1";
            FunctionName := "fc";
            FunctionArn := summary_FunctionArn Sample.fc;
            Runtime := "Unknown";
            DeprecationInfo := "No deprecation information available" |}.
Proof.
  apply (missing_Runtime_is_looked_up_as_Unknown Sample.aws Sample.session_111
           "111" "us-east-1" tt [] (firstn 3 (Sample.rows_in "111")) 2 Sample.fc).
  - vm_compute. reflexivity.
  - reflexivity.
  - reflexivity.
Defined.

(** X7.  In a response, the status "Unknown" marks exactly the rows of
    failed fetches: the catalog lookup never returns "Unknown", so a row
    whose DeprecationInfo is "Unknown" has Runtime "Error retrieving" and
    belongs to a listed function whose configuration fetch raised a
    ClientError. *)
Theorem status_Unknown_marks_a_failed_fetch
    (aws : AWS) {L Ev Ctx} (event : Ev) (context : Ctx) (l : L) out resp r :
  outcome (lambda_handler aws event context) l out = inr resp →
  r ∈ body resp →
  DeprecationInfo r = "Unknown" →
  Runtime r = "Error retrieving"
  ∧ ∃ client s,
      region_name client = Region r
      ∧ get_function_configuration aws client (FunctionName r)
        = inl (ClientError s).
Proof.
  intros Hrun Hin Hunknown.
  destruct (body_row_origin aws event context l out resp r Hrun Hin)
    as (described & account & assumed & region & chunk & _ & _ & _ & _ & Henum & Hr).
  destruct (enumerated_row_origin aws _ _ _ _ _ Henum Hr)
    as (function & _ & _ & Hreg & Hname & _ & Hstatus).
  rewrite <- Hname in Hstatus.
  destruct (get_function_configuration aws _ (FunctionName r))
    as [[s|k|s]|config] eqn:Hfetch; try done.
  - destruct Hstatus as [Hruntime _]. split; [done|].
    exists (LambdaClient (assumed_session assumed) region), s. by split.
  - destruct Hstatus as [_ Hinfo]. rewrite Hunknown in Hinfo.
    by apply get_deprecation_info_never_Unknown in Hinfo.
Qed.

Lemma status_Unknown_marks_a_failed_fetch_witness :
  let r := Row "333" "us-east-1" "fb" (summary_FunctionArn Sample.fb)
             "Error retrieving" "Unknown" in
  Runtime r = "Error retrieving"
  ∧ ∃ client s,
      region_name client = Region r
      ∧ get_function_configuration Sample.aws client (FunctionName r)
        = inl (ClientError s).
Proof.
  apply (status_Unknown_marks_a_failed_fetch Sample.aws tt tt tt []
           Sample.expected_response).
  - vm_compute. reflexivity.
  - do 5 right. left.
  - reflexivity.
Defined.

(** *** The role that is assumed *)

Lemma append_inj_l (s a b : string) : s +:+ a = s +:+ b → a = b.
Proof.
  induction s as [|c s IH]; cbn; [done|]. intros [= H]. by apply IH.
Qed.

Lemma length_append (a b : string) :
  String.length (a +:+ b) = String.length a + String.length b.
Proof.
  induction a as [|c a IH]; [reflexivity|].
  change (S (String.length (a +:+ b)) = S (String.length a + String.length b)).
  by rewrite IH.
Qed.

Lemma length_String (c : Ascii.ascii) (s : string) :
  String.length (String c s) = S (String.length s).
Proof. reflexivity. Qed.

Lemma append_inj_r (t : string) : ∀ a b : string, a +:+ t = b +:+ t → a = b.
Proof.
  induction a as [|c a IH]; intros [|d b] H.
  - done.
  - apply (f_equal String.length) in H.
    change ("" +:+ t) with t in H. change (String d b +:+ t) with (String d (b +:+ t)) in H.
    rewrite length_String, length_append in H. lia.
  - apply (f_equal String.length) in H.
    change ("" +:+ t) with t in H. change (String c a +:+ t) with (String c (a +:+ t)) in H.
    rewrite length_String, length_append in H. lia.
  - change (String c (a +:+ t) = String d (b +:+ t)) in H.
    injection H as -> H. f_equal. by apply IH.
Qed.

(** X8.  The role ARN built on line 115 embeds the account identifier
    between a fixed prefix and a fixed suffix, so two accounts get the same
    role ARN only if they have the same identifier: no account is queried
    under the role of another. *)
Theorem role_to_assume_format_injective (account_id account_id' : string) :
  role_to_assume_format account_id = role_to_assume_format account_id' →
  account_id = account_id'.
Proof.
  unfold role_to_assume_format. intros H.
  apply append_inj_l in H. by apply append_inj_r in H.
Qed.

Lemma role_to_assume_format_injective_witness :
  role_to_assume_format "111"
  = "arn:aws:iam::111:role/CrossAccountLambdaListerRole"
  ∧ "111" = "111".
Proof.
  split; [reflexivity|].
  apply (role_to_assume_format_injective "111" "111"). reflexivity.
Defined.




(** X10.  The handler consults the role-assumption service only for the
    role ARN of each listed account under the session name
    "ListLambdaFunctionsSession": replacing the service by one that answers
    those calls alike, and anything else differently, changes neither the
    outcome nor what is printed. *)
Theorem handler_assumes_only_the_fixed_role
    (aws : AWS) (f : string → string → exception + assume_role_response)
    {L Ev Ctx} (event : Ev) (context : Ctx) (l : L) out :
  (∀ account, account ∈ yielded_accounts (list_accounts aws) →
     f (role_to_assume_format (Id account)) "ListLambdaFunctionsSession"
     = assume_role aws (role_to_assume_format (Id account))
         "ListLambdaFunctionsSession") →
  lambda_handler (with_assume_role aws f) event context l out
  = lambda_handler aws event context l out.
Proof.
  intros Hsame.
  assert (Hloop : ∀ regions accts frame out0,
            (∀ account, account ∈ accts →
               account ∈ yielded_accounts (list_accounts aws)) →
            for_each accts (list_account (with_assume_role aws f) regions) frame out0
            = for_each accts (list_account aws regions) frame out0).
  { intros regions.
    induction accts as [|account accts IH]; intros frame out0 Hin; [done|].
    cbn [for_each]. unfold bind.
    assert (Hone : list_account (with_assume_role aws f) regions account frame out0
                   = list_account aws regions account frame out0).
    { unfold list_account, try_except_ClientError, bind.
      change (assume_role (with_assume_role aws f)) with f.
      rewrite Hsame by (apply Hin; left).
      reflexivity. }
    rewrite Hone.
    destruct (list_account aws regions account frame out0) as [[[e|[]] l1] o1];
      [done|].
    apply IH. intros account' Hin'. apply Hin. by right. }
  unfold lambda_handler, call.
  change (list_accounts (with_assume_role aws f)) with (list_accounts aws).
  change (describe_regions (with_assume_role aws f)) with (describe_regions aws).
  unfold bind. rewrite !list_accounts_run.
  destruct (ending (list_accounts aws)) as [e|]; [done|].
  destruct (describe_regions aws) as [e|described]; cbn [lift raise ret]; [done|].
  cbn [get accounts all_functions app].
  by rewrite Hloop.
Qed.

Lemma handler_assumes_only_the_fixed_role_witness :
  lambda_handler Variants.other_sessions_refused tt tt tt []
  = lambda_handler Sample.aws tt tt tt [].
Proof.
  apply (handler_assumes_only_the_fixed_role Sample.aws
           (assume_role Variants.other_sessions_refused) tt tt tt []).
  intros account _. reflexivity.
Defined.

(** *** Pages *)

Lemma for_each_app {L X} (xs ys : list X) (body : X → M L unit) l out :
  for_each (xs ++ ys) body l out
  = bind (for_each xs body) (λ _, for_each ys body) l out.
Proof.
  revert l out. induction xs as [|x xs IH]; intros l out; [done|].
  cbn [app for_each]. unfold bind.
  destruct (body x l out) as [[[e|[]] l1] o1]; [done|]. by rewrite IH.
Qed.

(** The loop over the pages and, inside, over each page's functions is one
    loop over the functions in listing order, followed by the way the
    listing ended. *)
Lemma for_page_flat {L} (pages : paginate functions_page)
    (body : function_summary → M L unit) l out :
  for_page pages (λ page, for_each (Functions page) body) l out
  = bind (for_each (yielded_functions pages) body)
      (λ _, match ending pages with None => ret tt | Some e => raise e end) l out.
Proof.
  revert l out. induction pages as [|page rest IH|e]; intros l out; [done| |done].
  cbn [for_page ending]. unfold yielded_functions. cbn [yielded map concat].
  unfold bind. rewrite for_each_app. unfold bind.
  destruct (for_each (Functions page) body l out) as [[[e|[]] l1] o1]; [done|].
  by rewrite IH.
Qed.

(** X11.  Page boundaries of the function listing are invisible: a listing
    that yields the same functions in the same order and ends the same way,
    cut into pages differently, gives the same run of the enumerator (the
    same rows or exception, the same lines printed). *)
Theorem page_boundaries_do_not_matter
    (aws : AWS) (f : lambda_client → paginate functions_page)
    (session : Session) (account_id region : string) {L} (l : L) out :
  let client := LambdaClient session region in
  yielded_functions (f client) = yielded_functions (list_functions aws client) →
  ending (f client) = ending (list_functions aws client) →
  list_functions_in_account (with_list_functions aws f) session account_id region
    l out
  = list_functions_in_account aws session account_id region l out.
Proof.
  intros client Hyielded Hending.
  unfold list_functions_in_account, call, bind, try_except_ClientError.
  change (list_functions (with_list_functions aws f)) with f.
  change (report_function (with_list_functions aws f))
    with (report_function aws).
  fold client. rewrite !for_page_flat, Hyielded, Hending. reflexivity.
Qed.

Lemma page_boundaries_do_not_matter_witness :
  list_functions_in_account Variants.one_page Sample.session_111 "111" "us-east-1"
    tt []
  = list_functions_in_account Sample.aws Sample.session_111 "111" "us-east-1"
      tt [].
Proof.
  apply (page_boundaries_do_not_matter Sample.aws
           (list_functions Variants.one_page) Sample.session_111
           "111" "us-east-1" tt []); reflexivity.
Defined.

(** *** Reading a status back *)

Lemma scheduled_entries_iso_dated :
  Forall (λ kv : string * runtime_info,
            deprecated kv.2 = false → date kv.2 ≠ "N/A" →
            is_iso_date (date kv.2) = true)
    RUNTIME_DEPRECATIONS_items.
Proof. apply (bool_decide_unpack _). vm_compute. reflexivity. Qed.

Lemma status_inj (s t : string) : @inr exception string s = inr t → s = t.
Proof. by intros [= ->]. Qed.

(** X12.  The status string tells the state of the catalog entry it was
    made from: "Deprecated since d" comes only from a deprecated entry
    dated d, "Will be deprecated on d" only from an entry that is not
    deprecated and is dated d, a date written YYYY-MM-DD,
    "No scheduled deprecation" only from an entry that is not deprecated
    and dated "N/A", and "No deprecation information available" only from
    a runtime that is not a key. *)
Theorem status_determines_the_entry (runtime : string) :
  (∀ d, get_deprecation_info runtime = inr ("Deprecated since " +:+ d) →
     RUNTIME_DEPRECATIONS !! runtime = Some {| deprecated := true; date := d |})
  ∧ (∀ d, get_deprecation_info runtime = inr ("Will be deprecated on " +:+ d) →
       RUNTIME_DEPRECATIONS !! runtime = Some {| deprecated := false; date := d |}
       ∧ d ≠ "N/A" ∧ is_iso_date d = true)
  ∧ (get_deprecation_info runtime = inr "No scheduled deprecation" →
       RUNTIME_DEPRECATIONS !! runtime
       = Some {| deprecated := false; date := "N/A" |})
  ∧ (get_deprecation_info runtime = inr "No deprecation information available" →
       RUNTIME_DEPRECATIONS !! runtime = None).
Proof.
  rewrite get_deprecation_info_unfold.
  destruct (RUNTIME_DEPRECATIONS !! runtime) as [[dep dt]|] eqn:Hkey; cbn [deprecated date].
  - destruct dep.
    + split; [|split; [|split]]; try discriminate.
      intros d Hd%status_inj%append_inj_l. by rewrite Hd.
    + destruct (String.eqb dt "N/A") eqn:Hna.
      * apply String.eqb_eq in Hna as ->.
        split; [|split; [|split]]; try discriminate. done.
      * split; [|split; [|split]]; try discriminate.
        intros d Hd%status_inj%append_inj_l. subst dt. apply String.eqb_neq in Hna.
        split; [done|]. split; [done|].
        apply RUNTIME_DEPRECATIONS_lookup in Hkey.
        pose proof scheduled_entries_iso_dated as Hiso.
        rewrite Forall_forall in Hiso. by apply (Hiso _ Hkey).
  - split; [|split; [|split]]; try discriminate. done.
Qed.

Lemma status_determines_the_entry_witness :
  RUNTIME_DEPRECATIONS !! "java17"
  = Some {| deprecated := false; date := "2026-09-14" |}
  ∧ "2026-09-14" ≠ "N/A" ∧ is_iso_date "2026-09-14" = true.
Proof.
  apply (proj1 (proj2 (status_determines_the_entry "java17")) "2026-09-14").
  vm_compute. reflexivity.
Defined.
